(** * Personalize: the lookbook selection engine of personalize.ts

    A shallow embedding of [NewPersonalize] (src/personalize.ts) and the
    properties of its selection, weight update and storage routines.

    Modelling conventions.
    - A JavaScript number is a [num]: an exact rational, [+Infinity],
      [-Infinity] or [NaN].  Arithmetic on finite values is exact (no
      rounding) and the sign of zero is not tracked.  The only divisor in
      the modelled code is [scoreSum], a sum that starts from [0.0] and is
      therefore never the negative zero.
    - [undefined] read in an arithmetic position behaves as [NaN].
    - An object used as a dictionary (user weights, default interests) is a
      [gmap string _] of its own properties.  A read [obj[k]] that finds no
      own property falls through to [Object.prototype]: for the names of
      [Object_prototype] it yields a function (the prototype itself for
      [__proto__]), which is truthy and not a number.  Assignments create
      or update own properties; the setter behind [__proto__] is not
      modelled, interest identifiers are taken to differ from that name.
    - [count] and [maxConsidered] are integers (the caller passes an array
      length); the other tunables are numbers.
    - The catalog handed to [choose] is untyped ([jsval]); once sanitized,
      a catalog object is read through [as_lookbook] in the format the feed
      documents (interests: strings, boost: number, promote: any value,
      by truthiness).
    - The weights kept in [localStorage] are JSON: finite numbers.
    - The random source is a function from the rank of the call to the
      value returned.
    - [Math.pow] is a parameter of the development ([pow]).
    - Debug output is off ([debug = false], the initial value). *)

From Stdlib Require Import QArith Qround ZArith Lia Lqa.
From stdpp Require Import gmap strings list fin_maps.

Local Open Scope Z_scope.
Set Warnings "-register-all".

(** ** JavaScript numbers *)

Inductive num : Type :=
  | NaN
  | NInf
  | PInf
  | Fin (q : Q).

Module Num.

Definition zerob (q : Q) : bool := Qeq_bool q 0.
Definition negb_q (q : Q) : bool := negb (Qle_bool 0 q).

(** Sign of a non-NaN value as an infinity, [NaN] for zero. *)
Definition inf_of_sign (q : Q) : num :=
  if zerob q then NaN else if negb_q q then NInf else PInf.

Definition opp (a : num) : num :=
  match a with
  | NaN => NaN
  | NInf => PInf
  | PInf => NInf
  | Fin q => Fin (Qopp q)
  end.

Definition add (a b : num) : num :=
  match a, b with
  | NaN, _ | _, NaN => NaN
  | PInf, NInf | NInf, PInf => NaN
  | PInf, _ | _, PInf => PInf
  | NInf, _ | _, NInf => NInf
  | Fin x, Fin y => Fin (Qplus x y)
  end.

Definition sub (a b : num) : num := add a (opp b).

Definition mul (a b : num) : num :=
  match a, b with
  | NaN, _ | _, NaN => NaN
  | PInf, PInf | NInf, NInf => PInf
  | PInf, NInf | NInf, PInf => NInf
  | PInf, Fin y | Fin y, PInf => inf_of_sign y
  | NInf, Fin y | Fin y, NInf => opp (inf_of_sign y)
  | Fin x, Fin y => Fin (Qmult x y)
  end.

(** [a / b].  A zero divisor is the positive zero. *)
Definition div (a b : num) : num :=
  match a, b with
  | NaN, _ | _, NaN => NaN
  | (PInf | NInf), (PInf | NInf) => NaN
  | PInf, Fin y => if negb_q y then NInf else PInf
  | NInf, Fin y => if negb_q y then PInf else NInf
  | Fin _, (PInf | NInf) => Fin 0
  | Fin x, Fin y => if zerob y then inf_of_sign x else Fin (Qdiv x y)
  end.

(** [a <= b]: false as soon as one side is [NaN]. *)
Definition leb (a b : num) : bool :=
  match a, b with
  | NaN, _ | _, NaN => false
  | NInf, _ => true
  | _, PInf => true
  | PInf, _ => false
  | _, NInf => false
  | Fin x, Fin y => Qle_bool x y
  end.

(** [Math.max(a, b)] and [Math.min(a, b)]. *)
Definition max (a b : num) : num :=
  match a, b with
  | NaN, _ | _, NaN => NaN
  | _, _ => if leb a b then b else a
  end.

Definition min (a b : num) : num :=
  match a, b with
  | NaN, _ | _, NaN => NaN
  | _, _ => if leb a b then a else b
  end.

(** Truthiness of a number: [0] and [NaN] are falsy. *)
Definition truthy (a : num) : bool :=
  match a with
  | NaN => false
  | Fin q => negb (zerob q)
  | _ => true
  end.

(** [a || b] on numbers. *)
Definition or_else (a b : num) : num := if truthy a then a else b.

Definition of_Z (z : Z) : num := Fin (inject_Z z).
Definition of_nat (n : nat) : num := of_Z (Z.of_nat n).

(** [Math.round(x)]: the nearest integer, halves towards [+Infinity]. *)
Definition round (a : num) : num :=
  match a with
  | Fin q => of_Z (Qfloor (Qplus q (1 # 2)))
  | _ => a
  end.

(** [lo <= a <= hi] as a proposition ([NaN] is in no range). *)
Definition between (lo a hi : num) : Prop :=
  leb lo a = true ∧ leb a hi = true.

(** [a >= b] and [a < b]: false as soon as one side is [NaN]. *)
Definition geb (a b : num) : bool := leb b a.

Definition ltb (a b : num) : bool := leb a b && negb (leb b a).

(** [Number.MAX_VALUE], [2^1024 - 2^971]. *)
Definition MAX_VALUE : num := of_Z (2 ^ 1024 - 2 ^ 971).

End Num.

(** ** Untyped catalog data, as handed to [choose] *)

Inductive jsval : Type :=
  | JUndefined
  | JNull
  | JBool (b : bool)
  | JNum (n : num)
  | JStr (s : string)
  | JArr (l : list jsval)
  | JObj (fields : list (string * jsval)).

Module Js.

(** Own property [k] of an object; [undefined] when there is none. *)
Fixpoint assoc (k : string) (fields : list (string * jsval)) : jsval :=
  match fields with
  | [] => JUndefined
  | (k', v) :: rest => if String.eqb k k' then v else assoc k rest
  end.

(** [v.k], for [v] neither [null] nor [undefined]. *)
Definition prop (v : jsval) (k : string) : jsval :=
  match v with
  | JObj fields => assoc k fields
  | _ => JUndefined
  end.

Definition isArray (v : jsval) : bool :=
  match v with JArr _ => true | _ => false end.

Definition is_null (v : jsval) : bool :=
  match v with JNull => true | _ => false end.

(** [typeof v === 'object'] *)
Definition typeof_object (v : jsval) : bool :=
  match v with JNull | JArr _ | JObj _ => true | _ => false end.

(** [typeof v === 'string'] *)
Definition typeof_string (v : jsval) : bool :=
  match v with JStr _ => true | _ => false end.

(** [v.length] of an array. *)
Definition length (v : jsval) : nat :=
  match v with JArr l => List.length l | _ => 0%nat end.

Definition truthy (v : jsval) : bool :=
  match v with
  | JUndefined | JNull => false
  | JBool b => b
  | JNum n => Num.truthy n
  | JStr s => negb (String.eqb s "")
  | JArr _ | JObj _ => true
  end.

(** [l.slice(0, e)] for an integer [e]. *)
Definition slice0 {A} (l : list A) (e : Z) : list A :=
  if e <? 0 then take (Z.to_nat (Z.of_nat (List.length l) + e)) l
  else take (Z.to_nat e) l.

End Js.

(** ** Lookbooks after sanitization

    The typed reading of a catalog object: the fields the engine looks at.
    [lkbk_interests = None] is an object without an [interests] array,
    [lkbk_boost = None] one without a [boost]. *)

Record lookbook : Type := Lookbook {
  lkbk_uid : string;
  lkbk_interests : option (list string);
  lkbk_boost : option num;
  lkbk_promote : bool;
  lkbk_score : num
}.

Definition as_interest (v : jsval) : option string :=
  match v with JStr s => Some s | _ => None end.

(** The feed format has [interests] an array of strings and [boost] a
    number; [promote] is read by truthiness.  [None]: the object is outside
    that format and its treatment by the untyped operators is not
    modelled. *)
Definition as_lookbook (v : jsval) : option lookbook :=
  match Js.prop v "uid", Js.prop v "interests" with
  | JStr u, JArr l =>
      match mapM as_interest l with
      | Some l' =>
          let promote := Js.truthy (Js.prop v "promote") in
          match Js.prop v "boost" with
          | JNum b => Some (Lookbook u (Some l') (Some b) promote NaN)
          | JUndefined | JNull => Some (Lookbook u (Some l') None promote NaN)
          | _ => None
          end
      | None => None
      end
  | _, _ => None
  end.

(** ** The instance *)

Record default_interest : Type := DefaultInterest {
  name_en : string;
  weight : option num
}.

Inductive event : Type :=
  | SelectedList (average_score average_chosen : num)
      (lookbooks : gmap string (option (list string) * num))
      (selected : list string) (user_weights : gmap string num)
  | ChosenLookbook (lookbook : string) (interests : list string)
      (user_weights : gmap string num).

Record instance : Type := Instance {
  count : Z;
  level0Multiplier : num;
  initialValue : num;
  hitValue : num;
  missValue : num;
  initialWeight : num;
  filterConst : num;
  deprioritization : num;
  noInterestsValue : num;
  scoreBoostExponent : num;
  interestValueFloor : num;
  lastAverage : num;
  maxConsidered : Z;
  defaultInterests : gmap string default_interest;
  posts : jsval;
  scored : list lookbook;
  lastEvent : option event;
  scoreBoost : option num
}.

(** The object literal of [NewPersonalize]. *)
Definition NewPersonalize : instance := {|
  count := 4;
  level0Multiplier := Fin 2;
  initialValue := Fin (1 # 2);
  hitValue := Fin 2;
  missValue := Fin (1 # 10000);
  initialWeight := Fin (1 # 1000);
  filterConst := Fin (95 # 100);
  deprioritization := Fin (2 # 10);
  noInterestsValue := Fin (1 # 100);
  scoreBoostExponent := Fin (19 # 10);
  interestValueFloor := Fin (1 # 10);
  lastAverage := Fin 0;
  maxConsidered := 50;
  defaultInterests := ∅;
  posts := JArr [];
  scored := [];
  lastEvent := None;
  scoreBoost := None
|}.

(** The [settings] argument of [choose]: every field may be absent. *)
Module Interest.
Record t : Type := Make {
  level0_multiplier : option num;
  initial : option num;
  hit : option num;
  miss : option num;
  filter_const : option num;
  deprioritization : option num;
  no_interests : option num;
  scoreBoost : option num
}.
(** [{}] *)
Definition empty : t := Make None None None None None None None None.
End Interest.

Module Settings.
Record t : Type := Make {
  count : option Z;
  maxConsidered : option Z;
  interest : option Interest.t
}.
End Settings.

(** The browser state the instance works in: the instance itself, the
    parsed content of the [localStorageKeyName] entry of [localStorage]
    ([None]: no entry) and [window.dataLayer] when there is one.  JSON holds
    finite numbers only. *)
Record world : Type := World {
  this : instance;
  localStorage : option (gmap string Q);
  dataLayer : option (list event)
}.

(** A property read that lands in arithmetic: [undefined] acts as [NaN]. *)
Definition number_at (m : gmap string num) (k : string) : num :=
  default NaN (m !! k).

(** The string-keyed members of [Object.prototype]. *)
Definition Object_prototype : list string :=
  ["constructor"; "__defineGetter__"; "__defineSetter__"; "hasOwnProperty";
   "__lookupGetter__"; "__lookupSetter__"; "isPrototypeOf";
   "propertyIsEnumerable"; "toString"; "valueOf"; "__proto__";
   "toLocaleString"].

(** [k] names a member every plain object inherits. *)
Definition inherited (k : string) : bool := bool_decide (k ∈ Object_prototype).

(** [o || d] for an optional integer and an optional number. *)
Definition or_Z (o : option Z) (d : Z) : Z :=
  match o with
  | Some z => if z =? 0 then d else z
  | None => d
  end.

Definition or_num (o : option num) (d : num) : num :=
  match o with
  | Some n => Num.or_else n d
  | None => d
  end.

(** What [updateChoices] returns. *)
Module Update.
Record t : Type := Make {
  lookbooks : list lookbook;
  userWeights : gmap string num;
  lookbook : lookbook
}.
End Update.

Section Personalize.

(** [Math.pow] *)
Variable pow : num → num → num.

(** *** CHOOSE: sanitization *)

Fixpoint cleanup_loop (lookbooks result : list jsval) : list jsval :=
  match lookbooks with
  | [] => result
  | lkbk :: rest =>
      if Js.is_null lkbk || negb (Js.typeof_object lkbk) then
        cleanup_loop rest result
      else if negb (Js.typeof_string (Js.prop lkbk "uid")) then
        cleanup_loop rest result
      else if negb (Js.isArray (Js.prop lkbk "interests"))
              || (Js.length (Js.prop lkbk "interests") =? 0)%nat then
        cleanup_loop rest result
      else cleanup_loop rest (result ++ [lkbk])
  end.

Definition cleanup (lookbooks : jsval) : list jsval :=
  match lookbooks with
  | JArr l => cleanup_loop l []
  | _ => []
  end.

(** *** SCORING *)

(** The part of [priority] after the user weights: [v.weight] when the
    default table yields a [v], an own entry or an inherited member (whose
    [weight] is [undefined]); [initialValue] otherwise. *)
Definition priority_default (self : instance) (interest : string) : num :=
  match defaultInterests self !! interest with
  | Some d => default NaN (weight d)
  | None => if inherited interest then NaN else initialValue self
  end.

(** When [userWeights[interest]] is an inherited member, that function (or
    object) is what [priority] returns.  [score] multiplies it or adds it to
    the sum, which becomes [NaN] or a string that is no numeral, and the
    product with [1.0 + boost] is [NaN] in both cases: as a number the
    member is [NaN]. *)
Definition priority (self : instance) (interest : string)
    (userWeights : gmap string num) : num :=
  match userWeights !! interest with
  | Some v => if Num.truthy v then v else priority_default self interest
  | None =>
      if inherited interest then NaN else priority_default self interest
  end.

Fixpoint score_interests (self : instance) (userWeights : gmap string num)
    (interests : list string) (i : nat) (finalScore : num) : num :=
  match interests with
  | [] => finalScore
  | interest :: rest =>
      let score := priority self interest userWeights in
      let score :=
        if (i =? 0)%nat then Num.mul score (level0Multiplier self) else score in
      score_interests self userWeights rest (S i) (Num.add finalScore score)
  end.

Definition score_lkbk (self : instance) (userWeights : gmap string num)
    (lkbk : lookbook) : lookbook :=
  let finalScore :=
    match lkbk_interests lkbk with
    | None => noInterestsValue self
    | Some interests => score_interests self userWeights interests 0 (Fin 0)
    end in
  let boost := or_num (lkbk_boost lkbk) (Fin 0) in
  let finalScore := Num.mul finalScore (Num.add (Fin 1) boost) in
  {| lkbk_uid := lkbk_uid lkbk;
     lkbk_interests := lkbk_interests lkbk;
     lkbk_boost := lkbk_boost lkbk;
     lkbk_promote := lkbk_promote lkbk;
     lkbk_score := pow finalScore (scoreBoostExponent self) |}.

Definition score (self : instance) (lookbooks : list lookbook)
    (userWeights : gmap string num) : list lookbook :=
  score_lkbk self userWeights <$> lookbooks.

(** *** SELECTION *)

Definition scoreSum (lookbooks : list lookbook) : num :=
  foldl (λ scoreSum lkbk, Num.add scoreSum (lkbk_score lkbk)) (Fin 0) lookbooks.

(** The [for] loop of [getSelection]; [0] when it runs to its end. *)
Fixpoint getSelection_loop (lookbooks : list lookbook)
    (randomChoice scoreSum runningSum : num) (index : nat) : nat :=
  match lookbooks with
  | [] => 0%nat
  | lkbk :: rest =>
      let runningSum := Num.add runningSum (Num.div (lkbk_score lkbk) scoreSum) in
      if Num.leb randomChoice runningSum then index
      else getSelection_loop rest randomChoice scoreSum runningSum (S index)
  end.

Definition set_lastAverage (self : instance) (v : num) : instance :=
  {| count := count self; level0Multiplier := level0Multiplier self;
     initialValue := initialValue self; hitValue := hitValue self;
     missValue := missValue self; initialWeight := initialWeight self;
     filterConst := filterConst self; deprioritization := deprioritization self;
     noInterestsValue := noInterestsValue self;
     scoreBoostExponent := scoreBoostExponent self;
     interestValueFloor := interestValueFloor self;
     lastAverage := v;
     maxConsidered := maxConsidered self;
     defaultInterests := defaultInterests self;
     posts := posts self; scored := scored self;
     lastEvent := lastEvent self; scoreBoost := scoreBoost self |}.

(** [randomChoice] is the value [rand()] returned for this call. *)
Definition getSelection (self : instance) (lookbooks : list lookbook)
    (randomChoice : num) : nat * instance :=
  let scoreSum := scoreSum lookbooks in
  let self := set_lastAverage self
                (Num.div scoreSum (Num.of_nat (length lookbooks))) in
  (getSelection_loop lookbooks randomChoice scoreSum (Fin 0) 0, self).

(** The last loop of [updateChoices], over the interests of the chosen
    lookbook. *)
Definition deprioritize (self : instance) (uw : gmap string num)
    (interests : list string) : gmap string num :=
  foldl (λ uw i,
           <[i := Num.mul (number_at uw i)
                    (Num.sub (Fin 1) (deprioritization self))]> uw)
        uw interests.

(** [None]: a [TypeError], from [lkbk.interests] with [lkbk] undefined or
    from iterating an undefined [interests]. *)
Definition updateChoices (self : instance) (lookbooks : list lookbook)
    (userWeights : gmap string num) (index : nat) : option Update.t :=
  match lookbooks !! index with
  | None => None
  | Some lkbk =>
      let remaining := delete index lookbooks in
      match lkbk_interests lkbk with
      | None => None
      | Some interests =>
          let uw := deprioritize self userWeights interests in
          Some {| Update.lookbook := lkbk;
                  Update.lookbooks := remaining;
                  Update.userWeights := uw |}
      end
  end.

(** The first loop of [getList]: promoted lookbooks go to [result], the
    others to [temp]. *)
Fixpoint getList_split (lookbooks result temp : list lookbook)
    : list lookbook * list lookbook :=
  match lookbooks with
  | [] => (result, temp)
  | lkbk :: rest =>
      if lkbk_promote lkbk then getList_split rest (result ++ [lkbk]) temp
      else getList_split rest result (temp ++ [lkbk])
  end.

(** The second loop of [getList], [n] rounds from round [i] on; [rand i]
    is what the [i]-th call of the random source returns. *)
Fixpoint getList_loop (n i : nat) (self : instance) (lookbooks : list lookbook)
    (userWeights : gmap string num) (rand : nat → num)
    (result : list lookbook) : option (list lookbook) * instance :=
  match n with
  | O => (Some result, self)
  | S n' =>
      let '(selected, self) := getSelection self lookbooks (rand i) in
      match updateChoices self lookbooks userWeights selected with
      | None => (None, self)
      | Some update =>
          getList_loop n' (S i) self (Update.lookbooks update)
            (Update.userWeights update) rand
            (result ++ [Update.lookbook update])
      end
  end.

Definition getList (self : instance) (lookbooks : list lookbook)
    (userWeights : gmap string num) (rand : nat → num)
    : option (list lookbook) * instance :=
  let '(result, temp) := getList_split lookbooks [] [] in
  let lookbooks := temp in
  let num := Z.min (count self - Z.of_nat (length result))
                   (Z.of_nat (length lookbooks)) in
  getList_loop (Z.to_nat num) 0 self lookbooks userWeights rand result.

(** *** UPDATE_WEIGHTS *)

(** The body of the first loop of [updateWeights], for the key [k]. *)
Definition filtered (self : instance) (interests : list string) (k : string)
    (score : num) : num :=
  let v := if bool_decide (k ∈ interests)
           then hitValue self else missValue self in
  let score := Num.add (Num.mul (filterConst self) score)
                 (Num.mul (Num.sub (Fin 1) (filterConst self)) v) in
  Num.min (Fin 1) (Num.max (interestValueFloor self) score).

(** The second loop of [updateWeights].  Without an own property,
    [userWeights[i]] is [undefined], or an inherited member, which is
    truthy: then nothing is added. *)
Definition add_missing (self : instance) (uw : gmap string num)
    (interests : list string) : gmap string num :=
  foldl (λ uw i,
           match uw !! i with
           | Some w => if Num.truthy w then uw else <[i := initialValue self]> uw
           | None => if inherited i then uw else <[i := initialValue self]> uw
           end)
        uw interests.

Definition updateWeights (self : instance) (interests : list string)
    (userWeights : gmap string num) : gmap string num :=
  add_missing self
    (map_imap (λ k score, Some (filtered self interests k score)) userWeights)
    interests.

(** *** LOGGING *)

(** Limit value to 3 decimal digits. *)
Definition limit (x : num) : num :=
  Num.div (Num.round (Num.mul x (Fin 1000))) (Fin 1000).

Definition set_lastEvent (self : instance) (e : option event) : instance :=
  {| count := count self; level0Multiplier := level0Multiplier self;
     initialValue := initialValue self; hitValue := hitValue self;
     missValue := missValue self; initialWeight := initialWeight self;
     filterConst := filterConst self; deprioritization := deprioritization self;
     noInterestsValue := noInterestsValue self;
     scoreBoostExponent := scoreBoostExponent self;
     interestValueFloor := interestValueFloor self;
     lastAverage := lastAverage self;
     maxConsidered := maxConsidered self;
     defaultInterests := defaultInterests self;
     posts := posts self; scored := scored self;
     lastEvent := e; scoreBoost := scoreBoost self |}.

Definition set_scored (self : instance) (l : list lookbook) : instance :=
  {| count := count self; level0Multiplier := level0Multiplier self;
     initialValue := initialValue self; hitValue := hitValue self;
     missValue := missValue self; initialWeight := initialWeight self;
     filterConst := filterConst self; deprioritization := deprioritization self;
     noInterestsValue := noInterestsValue self;
     scoreBoostExponent := scoreBoostExponent self;
     interestValueFloor := interestValueFloor self;
     lastAverage := lastAverage self;
     maxConsidered := maxConsidered self;
     defaultInterests := defaultInterests self;
     posts := posts self; scored := l;
     lastEvent := lastEvent self; scoreBoost := scoreBoost self |}.

(** Send log event if dataLayer exists; with debugging off
    [outputDebugging] only records the event. *)
Definition log (e : event) (w : world) : world :=
  {| this := set_lastEvent (this w) (Some e);
     localStorage := localStorage w;
     dataLayer := (λ l, l ++ [e]) <$> dataLayer w |}.

Definition logSelected (selectedList : list lookbook)
    (userWeights : gmap string num) (w : world) : world :=
  let scored := scored (this w) in
  let allSum := foldl (λ s lkbk, Num.add s (lkbk_score lkbk)) (Fin 0) scored in
  let lookbooks :=
    foldl (λ m lkbk,
             <[lkbk_uid lkbk := (lkbk_interests lkbk, limit (lkbk_score lkbk))]> m)
          (∅ : gmap string (option (list string) * num)) scored in
  let selectedSum :=
    foldl (λ s lkbk, Num.add s (lkbk_score lkbk)) (Fin 0) selectedList in
  let selected := lkbk_uid <$> selectedList in
  let uw := limit <$> userWeights in
  log (SelectedList
         (limit (Num.div allSum (Num.of_nat (length scored))))
         (limit (Num.div selectedSum (Num.of_nat (length selectedList))))
         lookbooks selected uw) w.

Definition logChoice (uid : string) (interests : list string)
    (userWeights : gmap string num) (w : world) : world :=
  log (ChosenLookbook uid interests (limit <$> userWeights)) w.

(** *** STORAGE *)

(** [JSON.stringify] writes [null] for [NaN] and the infinities, and
    [null] read back acts as [0] in every use the engine makes of a
    weight. *)
Definition json_number (a : num) : Q :=
  match a with
  | Fin q => q
  | _ => 0%Q
  end.

Definition setWeights (weights : gmap string num) (w : world) : world :=
  {| this := this w;
     localStorage := Some (json_number <$> weights);
     dataLayer := dataLayer w |}.

Definition getWeights (w : world) : gmap string num :=
  match localStorage w with
  | Some v => Fin <$> v
  | None =>
      (λ d, Num.or_else (default NaN (weight d)) (initialWeight (this w)))
        <$> defaultInterests (this w)
  end.

(** *** PUBLIC *)

Definition click (uid : string) (interests : list string) (w : world) : world :=
  let updatedWeights := updateWeights (this w) interests (getWeights w) in
  let w := logChoice uid interests updatedWeights w in
  setWeights updatedWeights w.

(** [None]: no list is returned (a [TypeError] in the selection, or a
    sanitized catalog object outside the typed feed format). *)
Definition performChoose (posts : jsval) (rand : nat → num) (w : world)
    : option (list lookbook) * world :=
  let userWeights := getWeights w in
  let cleaned := cleanup posts in
  let data := Js.slice0 cleaned (maxConsidered (this w)) in
  match mapM as_lookbook data with
  | None => (None, w)
  | Some data =>
      let scored := score (this w) data userWeights in
      let self := set_scored (this w) scored in
      let '(list, self) := getList self scored userWeights rand in
      let w := {| this := self; localStorage := localStorage w;
                  dataLayer := dataLayer w |} in
      match list with
      | None => (None, w)
      | Some list => (Some list, logSelected list userWeights w)
      end
  end.

(** The assignments at the head of [choose]. *)
Definition setup (self : instance) (posts' : jsval) (settings : Settings.t)
    (defaultInterests' : gmap string default_interest) : instance :=
  let interest := default Interest.empty (Settings.interest settings) in
  {| posts := posts';
     count := or_Z (Settings.count settings) (count self);
     maxConsidered := or_Z (Settings.maxConsidered settings) (maxConsidered self);
     level0Multiplier :=
       or_num (Interest.level0_multiplier interest) (level0Multiplier self);
     initialValue := or_num (Interest.initial interest) (initialValue self);
     hitValue := or_num (Interest.hit interest) (hitValue self);
     missValue := or_num (Interest.miss interest) (missValue self);
     filterConst := or_num (Interest.filter_const interest) (filterConst self);
     deprioritization :=
       or_num (Interest.deprioritization interest) (deprioritization self);
     noInterestsValue :=
       or_num (Interest.no_interests interest) (noInterestsValue self);
     scoreBoost :=
       match Interest.scoreBoost interest with
       | Some n => if Num.truthy n then Some n else scoreBoost self
       | None => scoreBoost self
       end;
     defaultInterests := defaultInterests';
     initialWeight := initialWeight self;
     scoreBoostExponent := scoreBoostExponent self;
     interestValueFloor := interestValueFloor self;
     lastAverage := lastAverage self;
     scored := scored self;
     lastEvent := lastEvent self |}.

(** [rand] stands for [Math.random], which [getList] falls back to. *)
Definition choose (posts : jsval) (settings : Settings.t)
    (defaultInterests : gmap string default_interest) (rand : nat → num)
    (w : world) : option (list lookbook) * world :=
  let self := setup (this w) posts settings defaultInterests in
  performChoose posts rand
    {| this := self; localStorage := localStorage w; dataLayer := dataLayer w |}.

End Personalize.

(** ** The other public routines *)

(** [v === null || v === undefined], the test of [??]. *)
Definition nullish (v : jsval) : bool :=
  match v with JUndefined | JNull => true | _ => false end.

Definition digit_of (c : Ascii.ascii) : option nat :=
  let n := Ascii.nat_of_ascii c in
  if (48 <=? n)%nat && (n <=? 57)%nat then Some (n - 48)%nat else None.

Fixpoint parse_digits (s : string) (acc : nat) : option nat :=
  match s with
  | EmptyString => Some acc
  | String c rest =>
      match digit_of c with
      | Some d => parse_digits rest (10 * acc + d)%nat
      | None => None
      end
  end.

(** The array index a property key denotes: a decimal numeral without
    leading zero. *)
Definition array_index (k : string) : option nat :=
  match k with
  | EmptyString => None
  | String c rest =>
      if (Ascii.nat_of_ascii c =? 48)%nat
      then (if String.eqb rest "" then Some 0%nat else None)
      else parse_digits k 0
  end.

(** What a property read yields: a value, or the member [k] inherited from a
    prototype (a function, or the prototype itself for [__proto__]). *)
Inductive property : Type :=
  | Value (v : jsval)
  | Inherited (k : string).

(** [v === null || v === undefined], the test of [??], on what was read. *)
Definition nullish_property (p : property) : bool :=
  match p with
  | Value v => nullish v
  | Inherited _ => false
  end.

(** The object has an own property [k]. *)
Definition has_own (k : string) (fields : list (string * jsval)) : bool :=
  existsb (λ p, String.eqb k p.1) fields.

(** The string-keyed members of [Array.prototype] (ECMAScript 2023). *)
Definition Array_prototype : list string :=
  ["at"; "concat"; "constructor"; "copyWithin"; "entries"; "every"; "fill";
   "filter"; "find"; "findIndex"; "findLast"; "findLastIndex"; "flat";
   "flatMap"; "forEach"; "includes"; "indexOf"; "join"; "keys";
   "lastIndexOf"; "map"; "pop"; "push"; "reduce"; "reduceRight"; "reverse";
   "shift"; "slice"; "some"; "sort"; "splice"; "toLocaleString";
   "toReversed"; "toSorted"; "toSpliced"; "toString"; "unshift"; "values";
   "with"].

(** [translations[k]]: an own property first, then the prototype chain. *)
Definition element (translations : jsval) (k : string) : property :=
  match translations with
  | JObj fields =>
      if has_own k fields then Value (Js.assoc k fields)
      else if inherited k then Inherited k
      else Value JUndefined
  | JArr l =>
      if String.eqb k "length" then Value (JNum (Num.of_nat (length l)))
      else match array_index k with
           | Some i => Value (default JUndefined (l !! i))
           | None =>
               if bool_decide (k ∈ Array_prototype) || inherited k
               then Inherited k
               else Value JUndefined
           end
  | _ => Value JUndefined
  end.

(** [translations[Object.keys(translations)[0]]] when there is a key;
    the fields of an object are listed in the order of [Object.keys]. *)
Definition first_element (translations : jsval) : option jsval :=
  match translations with
  | JObj ((_, v) :: _) => Some v
  | JArr (v :: _) => Some v
  | _ => None
  end.

(** [None]: the [TypeError] of [Object.keys(null)]. *)
Definition chooseText (translations : jsval) (languageCode : string)
    : option property :=
  match translations with
  | JStr _ => Some (Value translations)
  | JUndefined | JBool _ | JNum _ =>
      Some (Value (JStr "Bad translation information"))
  | JNull => None
  | JArr _ | JObj _ =>
      match first_element translations with
      | None => Some (Value (JStr ""))
      | Some first =>
          let translation := element translations languageCode in
          Some (if nullish_property translation then Value first
                else translation)
      end
  end.

(** An entry of the [images] or [previews] array of a lookbook. *)
Record picture : Type := Picture {
  link : string;
  width : num;
  height : num
}.

(** The loop of [findImage]: [image] is [None] for [null]. *)
Fixpoint findImage_loop (images : list picture) (w h : num)
    (image : option picture) (smallest2 : num) : option picture :=
  match images with
  | [] => image
  | el :: rest =>
      if Num.geb (width el) w && Num.geb (height el) h then
        let size2 := Num.add (Num.mul (width el) (width el))
                       (Num.mul (height el) (height el)) in
        if Num.ltb size2 smallest2 then findImage_loop rest w h (Some el) size2
        else findImage_loop rest w h image smallest2
      else findImage_loop rest w h image smallest2
  end.

(** [None]: [undefined], the first element of an empty array. *)
Definition findImage (images : list picture) (w h : num) : option picture :=
  match findImage_loop images w h None Num.MAX_VALUE with
  | Some image => Some image
  | None => images !! 0%nat
  end.

(** ** Vocabulary of the statements *)

Definition has_interests (x : lookbook) : Prop := is_Some (lkbk_interests x).

(** The tunables [updateWeights] reads are finite, the filter constant is
    positive and [initialValue] lies between the floor and 1. *)
Definition tuned (self : instance) : Prop :=
  match filterConst self, hitValue self, missValue self,
        interestValueFloor self, initialValue self, initialWeight self with
  | Fin fc, Fin _, Fin _, Fin fl, Fin iv, Fin _ =>
      (0 < fc ∧ fl <= iv ∧ iv <= 1)%Q
  | _, _, _, _, _, _ => False
  end.

Definition infinite_or_NaN (t : num) : Prop := t = NaN ∨ t = NInf ∨ t = PInf.

(** A well-formed catalog entry, in the words of the specification: a
    record with a string identifier and a non-empty list of interests. *)
Definition well_formed_entry (v : jsval) : bool :=
  match v with
  | JObj fields =>
      match Js.assoc "uid" fields, Js.assoc "interests" fields with
      | JStr _, JArr (_ :: _) => true
      | _, _ => false
      end
  | _ => false
  end.

(** [settings] with [interest.scoreBoost] set to [e]. *)
Definition with_scoreBoost (e : option num) (settings : Settings.t) : Settings.t :=
  let i := default Interest.empty (Settings.interest settings) in
  {| Settings.count := Settings.count settings;
     Settings.maxConsidered := Settings.maxConsidered settings;
     Settings.interest :=
       Some {| Interest.level0_multiplier := Interest.level0_multiplier i;
               Interest.initial := Interest.initial i;
               Interest.hit := Interest.hit i;
               Interest.miss := Interest.miss i;
               Interest.filter_const := Interest.filter_const i;
               Interest.deprioritization := Interest.deprioritization i;
               Interest.no_interests := Interest.no_interests i;
               Interest.scoreBoost := e |} |}.

(** [size2] of [findImage]: the squared diagonal. *)
Definition size2 (el : picture) : num :=
  Num.add (Num.mul (width el) (width el))
    (Num.mul (height el) (height el)).

(** [el] is at least [w] wide and [h] high. *)
Definition covers (el : picture) (w h : num) : bool :=
  Num.geb (width el) w && Num.geb (height el) h.

(** The sum of the shares [q / total] of the scores [qs]. *)
Fixpoint share_sum (qs : list Q) (total : Q) : Q :=
  match qs with
  | [] => 0
  | q :: rest => q / total + share_sum rest total
  end.

(** The cumulative share of the first [n] scores. *)
Definition cumulative (qs : list Q) (total : Q) (n : nat) : Q :=
  share_sum (take n qs) total.

(** The tunables [choose] resolves from its settings. *)
Definition tunables (self : instance)
    : Z * Z * num * num * num * num * num * num * num :=
  (count self, maxConsidered self, level0Multiplier self, initialValue self,
   hitValue self, missValue self, filterConst self, deprioritization self,
   noInterestsValue self).

(** [{}] as settings. *)
Definition no_settings : Settings.t := Settings.Make None None None.

(** A weight that is a non-negative number. *)
Definition nonneg (v : num) : Prop := ∃ q, v = Fin q ∧ (0 <= q)%Q.

(** [g * 0.95^n]: what is left of a gap [g] after [n] steps of the low
    pass filter with the default [filterConst]. *)
Fixpoint decayed (g : Q) (n : nat) : Q :=
  match n with
  | O => g
  | S n' => (95 # 100) * decayed g n'
  end.

(** A clicked weight is at 1, or not below the floor and at most [c]
    below 2. *)
Definition hit_progress (c : Q) (x : num) : Prop :=
  x = Fin 1 ∨ ∃ q, x = Fin q ∧ (1 # 10 <= q)%Q ∧ (2 - c <= q)%Q.

(** A weight that is not clicked is at the floor, or at most [c] above the
    miss value. *)
Definition miss_progress (c : Q) (x : num) : Prop :=
  ∃ q, x = Fin q ∧ (1 # 10 <= q)%Q ∧ (q == 1 # 10 ∨ q <= (1 # 10000) + c)%Q.

(** A number other than [NaN] and the infinities. *)
Definition finite (a : num) : Prop := ∃ q, a = Fin q.

(** * Properties *)

(** ** The first loop of [getList] *)

Lemma getList_split_filter (l result temp : list lookbook) :
  getList_split l result temp =
    (result ++ List.filter lkbk_promote l,
     temp ++ List.filter (λ x, negb (lkbk_promote x)) l).
Proof.
  revert result temp.
  induction l as [|x l IH]; intros result temp; simpl.
  - by rewrite !app_nil_r.
  - destruct (lkbk_promote x); simpl; rewrite IH, <- app_assoc; reflexivity.
Qed.

Lemma filter_promote_lengths (l : list lookbook) :
  (length (List.filter lkbk_promote l)
   + length (List.filter (λ x, negb (lkbk_promote x)) l) = length l)%nat.
Proof.
  induction l as [|x l IH]; simpl; [done|].
  destruct (lkbk_promote x); simpl; lia.
Qed.

(** ** One sampling round *)

Lemma getSelection_loop_range (l : list lookbook) (r s rs : num) (i : nat) :
  getSelection_loop l r s rs i = 0%nat
  ∨ (i ≤ getSelection_loop l r s rs i < i + length l)%nat.
Proof.
  revert rs i.
  induction l as [|x l IH]; intros rs i; simpl; [by left|].
  destruct (Num.leb _ _); [right; lia|].
  destruct (IH (Num.add rs (Num.div (lkbk_score x) s)) (S i)) as [->|H];
    [by left|right; lia].
Qed.

Lemma getSelection_in_range (self : instance) (l : list lookbook) (r : num) :
  l ≠ [] → ((getSelection self l r).1 < length l)%nat.
Proof.
  intros Hl. unfold getSelection; simpl.
  destruct (getSelection_loop_range l r (scoreSum l) (Fin 0) 0) as [->|H].
  - destruct l; [done|simpl; lia].
  - lia.
Qed.

(** [updateChoices] at an index in range, for a lookbook with interests:
    no [TypeError], the pool loses exactly the chosen lookbook. *)
Lemma updateChoices_Some (self : instance) (l : list lookbook)
    (uw : gmap string num) (i : nat) (x : lookbook) (ints : list string) :
  l !! i = Some x → lkbk_interests x = Some ints →
  ∃ u, updateChoices self l uw i = Some u
       ∧ Update.lookbook u = x
       ∧ Update.lookbooks u = delete i l.
Proof.
  intros Hi Hx. unfold updateChoices. rewrite Hi, Hx. eauto.
Qed.


(** ** The second loop of [getList] *)

Lemma getList_loop_length (n : nat) :
  ∀ (i : nat) (self : instance) (pool : list lookbook) (uw : gmap string num)
    (rand : nat → num) (result : list lookbook),
    (n ≤ length pool)%nat → Forall has_interests pool →
    ∃ result',
      (getList_loop n i self pool uw rand result).1 = Some result'
      ∧ length result' = (length result + n)%nat.
Proof.
  induction n as [|n IH]; intros i self pool uw rand result Hn Hpool.
  - exists result. simpl. split; [done|lia].
  - assert (Hne : pool ≠ []) by (destruct pool; [simpl in Hn; lia|done]).
    cbn [getList_loop].
    pose proof (getSelection_in_range self pool (rand i) Hne) as Hsel.
    destruct (getSelection self pool (rand i)) as [selected self'] eqn:Hg.
    simpl in Hsel.
    destruct (lookup_lt_is_Some_2 pool selected Hsel) as [x Hx].
    assert (Hxi : has_interests x).
    { eapply Forall_forall in Hpool; [exact Hpool|].
      apply list_elem_of_lookup; eauto. }
    destruct Hxi as [ints Hints].
    destruct (updateChoices_Some self' pool uw selected x ints Hx Hints)
      as (u & -> & Hu1 & Hu2).
    destruct (IH (S i) self' (Update.lookbooks u) (Update.userWeights u) rand
                (result ++ [Update.lookbook u])) as (result' & Hr & Hlen).
    + rewrite Hu2, length_delete by eauto. lia.
    + rewrite Hu2. by apply Forall_delete.
    + exists result'. split; [done|]. rewrite Hlen, length_app. simpl. lia.
Qed.

Lemma Forall_filter_not_promoted (P : lookbook → Prop) (l : list lookbook) :
  Forall (λ x, lkbk_promote x = false → P x) l →
  Forall P (List.filter (λ x, negb (lkbk_promote x)) l).
Proof.
  induction 1 as [|x l Hx _ IH]; simpl; [constructor|].
  destruct (lkbk_promote x) eqn:E; simpl; [exact IH|].
  constructor; [by apply Hx|exact IH].
Qed.

(** What [getList] returns: every promoted lookbook, then as many sampled
    ones as there are slots left and lookbooks to fill them. *)
Lemma getList_returns (self : instance) (lookbooks : list lookbook)
    (userWeights : gmap string num) (rand : nat → num) :
  Forall (λ x, lkbk_promote x = false → has_interests x) lookbooks →
  ∃ result,
    (getList self lookbooks userWeights rand).1 = Some result
    ∧ let promoted := Z.of_nat (length (List.filter lkbk_promote lookbooks)) in
      let pool :=
        Z.of_nat (length (List.filter (λ x, negb (lkbk_promote x)) lookbooks)) in
      Z.of_nat (length result)
        = promoted + Z.min (Z.max 0 (count self - promoted)) pool
      ∧ (length result ≤ length lookbooks)%nat
      ∧ (promoted ≤ count self → Z.of_nat (length result) ≤ count self).
Proof.
  intros Hints. unfold getList.
  rewrite getList_split_filter. simpl.
  set (prom := List.filter lkbk_promote lookbooks).
  set (pool := List.filter (λ x, negb (lkbk_promote x)) lookbooks).
  set (n := Z.to_nat (Z.min (count self - Z.of_nat (length prom))
                            (Z.of_nat (length pool)))).
  destruct (getList_loop_length n 0 self pool userWeights rand prom)
    as (result & Hres & Hlen).
  - subst n. lia.
  - by apply Forall_filter_not_promoted.
  - exists result. split; [exact Hres|].
    pose proof (filter_promote_lengths lookbooks) as Hsum.
    fold prom pool in Hsum.
    rewrite Hlen. subst n. cbv zeta. lia.
Qed.




(** ** The working copy of the weights *)

Lemma updateChoices_weights_irrelevant (self : instance) (l : list lookbook)
    (uw1 uw2 : gmap string num) (i : nat) :
  match updateChoices self l uw1 i, updateChoices self l uw2 i with
  | Some u1, Some u2 =>
      Update.lookbook u1 = Update.lookbook u2
      ∧ Update.lookbooks u1 = Update.lookbooks u2
  | None, None => True
  | _, _ => False
  end.
Proof.
  unfold updateChoices.
  destruct (l !! i) as [x|]; [|done].
  destruct (lkbk_interests x); simpl; done.
Qed.

Lemma getList_loop_weights_irrelevant (n : nat) :
  ∀ (i : nat) (self : instance) (pool : list lookbook)
    (uw1 uw2 : gmap string num) (rand : nat → num) (result : list lookbook),
    getList_loop n i self pool uw1 rand result
    = getList_loop n i self pool uw2 rand result.
Proof.
  induction n as [|n IH]; intros i self pool uw1 uw2 rand result; [done|].
  cbn [getList_loop].
  destruct (getSelection self pool (rand i)) as [selected self'].
  pose proof (updateChoices_weights_irrelevant self' pool uw1 uw2 selected) as H.
  destruct (updateChoices self' pool uw1 selected) as [u1|],
           (updateChoices self' pool uw2 selected) as [u2|]; try done.
  destruct H as [-> ->]. apply IH.
Qed.

(** C2.  The list [getList] returns, and the instance it leaves, are the
    same for every weight map it is given: the working copy that
    [updateChoices] deprioritizes is threaded through the rounds and never
    read by [getSelection], which samples from the scores computed before
    the first round. *)
Theorem getList_ignores_userWeights (self : instance) (lookbooks : list lookbook)
    (uw1 uw2 : gmap string num) (rand : nat → num) :
  getList self lookbooks uw1 rand = getList self lookbooks uw2 rand.
Proof.
  unfold getList.
  destruct (getList_split lookbooks [] []) as [result temp].
  apply getList_loop_weights_irrelevant.
Qed.

(** Three lookbooks of score 1 (interests [x], [x], [y], both weights 0.5,
    as [score] gives them), two slots, random values 0.5 then 0.45.  The
    second round still sees [a] with score 1 and picks it, although [x] was
    deprioritized by the first pick. *)
Example getList_second_round_not_rescored :
  let self :=
    setup NewPersonalize (JArr []) (Settings.Make (Some 2) None None) ∅ in
  let a := Lookbook "a" (Some ["x"]) None false (Fin 1) in
  let b := Lookbook "b" (Some ["x"]) None false (Fin 1) in
  let c := Lookbook "c" (Some ["y"]) None false (Fin 1) in
  let uw : gmap string num := <["x" := Fin (1 # 2)]> (<["y" := Fin (1 # 2)]> ∅) in
  let rand := λ i : nat, if (i =? 0)%nat then Fin (1 # 2) else Fin (45 # 100) in
  (getList self [a; b; c] uw rand).1 = Some [b; a].
Proof. vm_compute. reflexivity. Qed.


(** ** Arithmetic facts *)

Lemma Qle_bool_false (x y : Q) : Qle_bool x y = false → (y < x)%Q.
Proof.
  intros H. apply Qnot_le_lt. rewrite <- Qle_bool_iff. congruence.
Qed.

Ltac qprop :=
  repeat match goal with
    | H : Qle_bool _ _ = true |- _ => apply Qle_bool_iff in H
    | H : Qle_bool _ _ = false |- _ => apply Qle_bool_false in H
    | H : Qeq_bool _ _ = true |- _ => apply Qeq_bool_iff in H
    | H : Qeq_bool _ _ = false |- _ => apply Qeq_bool_neq in H
    | |- Qle_bool _ _ = true => apply Qle_bool_iff
    end.

Ltac qcases :=
  repeat match goal with
    | |- context [Qle_bool ?a ?b] =>
        let E := fresh "E" in destruct (Qle_bool a b) eqn:E; simpl
    | |- context [Qeq_bool ?a ?b] =>
        let E := fresh "E" in destruct (Qeq_bool a b) eqn:E; simpl
    end.

(** [Math.min(1.0, Math.max(floor, x))] lands in [[floor, 1]] unless [x] is
    [NaN]. *)
Lemma clamp_between (fl x : num) :
  x ≠ NaN → Num.leb fl (Fin 1) = true →
  Num.between fl (Num.min (Fin 1) (Num.max fl x)) (Fin 1).
Proof.
  intros Hx Hfl. unfold Num.between.
  destruct fl as [| | |fl], x as [| | |x]; try done; simpl in *;
    unfold Num.leb, Num.max, Num.min; simpl; qcases; qprop; try done;
    try (split; qprop; lra).
Qed.

(** A weight that is [NaN] stays [NaN] through the filter and the clamp. *)
Lemma filtered_NaN (self : instance) (interests : list string) (k : string) :
  filtered self interests k NaN = NaN.
Proof.
  unfold filtered.
  destruct (filterConst self), (interestValueFloor self),
    (bool_decide (k ∈ interests)), (hitValue self), (missValue self);
    reflexivity.
Qed.

(** The low pass filter step on a weight that is a number. *)
Lemma filter_step_not_NaN (fc v : Q) (old : num) :
  (0 < fc)%Q → old ≠ NaN →
  Num.add (Num.mul (Fin fc) old) (Num.mul (Num.sub (Fin 1) (Fin fc)) (Fin v)) ≠ NaN.
Proof.
  intros Hfc Hold.
  destruct old as [| | |q]; try done; simpl;
    unfold Num.inf_of_sign, Num.zerob, Num.negb_q; qcases; qprop;
    try done; lra.
Qed.


Lemma tuned_NewPersonalize : tuned NewPersonalize.
Proof. unfold tuned; simpl. lra. Qed.

(** ** The weight update *)

Section UpdateWeights.

Variable self : instance.


Lemma filtered_between (interests : list string) (k : string) (old : num) :
  tuned self → old ≠ NaN →
  Num.between (interestValueFloor self) (filtered self interests k old) (Fin 1).
Proof.
  unfold tuned, filtered. intros Ht Hold.
  destruct (filterConst self) as [| | |fc]; try done.
  destruct (hitValue self) as [| | |h]; try done.
  destruct (missValue self) as [| | |m]; try done.
  destruct (interestValueFloor self) as [| | |fl]; try done.
  destruct (initialValue self) as [| | |iv]; try done.
  destruct (initialWeight self) as [| | |iw]; try done.
  destruct Ht as (Hfc & Hfl & Hiv).
  apply clamp_between.
  - destruct (bool_decide _); by apply filter_step_not_NaN.
  - simpl. qprop. lra.
Qed.

Lemma initialValue_between :
  tuned self → Num.between (interestValueFloor self) (initialValue self) (Fin 1).
Proof.
  unfold tuned. intros Ht.
  destruct (filterConst self) as [| | |fc]; try done.
  destruct (hitValue self) as [| | |h]; try done.
  destruct (missValue self) as [| | |m]; try done.
  destruct (interestValueFloor self) as [| | |fl]; try done.
  destruct (initialValue self) as [| | |iv]; try done.
  destruct (initialWeight self) as [| | |iw]; try done.
  destruct Ht as (Hfc & Hfl & Hiv).
  split; simpl; qprop; lra.
Qed.

Lemma add_missing_Forall (P : num → Prop) (interests : list string) :
  P (initialValue self) →
  ∀ uw : gmap string num,
    map_Forall (λ _, P) uw → map_Forall (λ _, P) (add_missing self uw interests).
Proof.
  intros Hiv. unfold add_missing.
  induction interests as [|i interests IH]; intros uw Huw; simpl; [done|].
  apply IH.
  destruct (uw !! i) as [w|] eqn:E.
  - destruct (Num.truthy w); [done|]. by apply map_Forall_insert_2.
  - destruct (inherited i); [done|]. by apply map_Forall_insert_2.
Qed.

Lemma elem_of_cons_other (k i : string) (interests : list string) :
  k ≠ i → bool_decide (k ∈ i :: interests) = bool_decide (k ∈ interests).
Proof.
  intros Hne. apply bool_decide_ext. rewrite elem_of_cons.
  split; [by intros [?|?]|by right].
Qed.

(** When the weights present are truthy, the second loop adds exactly the
    clicked interests that are missing and are not names of inherited
    members. *)
Lemma add_missing_lookup (interests : list string) :
  Num.truthy (initialValue self) = true →
  ∀ (uw : gmap string num) (k : string),
    map_Forall (λ _ w, Num.truthy w = true) uw →
    add_missing self uw interests !! k
    = match uw !! k with
      | Some w => Some w
      | None => if bool_decide (k ∈ interests) && negb (inherited k)
                then Some (initialValue self) else None
      end.
Proof.
  intros Hiv. unfold add_missing.
  induction interests as [|i interests IH]; intros uw k Huw; cbn [foldl].
  - destruct (uw !! k); [done|].
    case_bool_decide as H; [by apply elem_of_nil in H|done].
  - destruct (uw !! i) as [w|] eqn:E.
    + rewrite (Huw i w E). rewrite IH by done.
      destruct (uw !! k) eqn:Ek; [done|].
      assert (k ≠ i) by congruence.
      by rewrite elem_of_cons_other.
    + destruct (inherited i) eqn:Hi.
      * rewrite IH by done.
        destruct (uw !! k) eqn:Ek; [done|].
        destruct (decide (k = i)) as [->|Hne].
        -- rewrite Hi. by rewrite !andb_false_r.
        -- by rewrite elem_of_cons_other.
      * rewrite IH by (by apply map_Forall_insert_2).
        destruct (decide (k = i)) as [->|Hne].
        -- rewrite lookup_insert_eq, E, Hi.
           rewrite bool_decide_eq_true_2; [done|]. by left.
        -- rewrite lookup_insert_ne by done.
           destruct (uw !! k); [done|].
           by rewrite elem_of_cons_other.
Qed.

(** Every weight [updateWeights] returns lies in
    [[interestValueFloor, 1]], as soon as no weight it is given is
    [NaN]. *)
Lemma updateWeights_between (interests : list string) (uw : gmap string num) :
  tuned self →
  map_Forall (λ _ w, w ≠ NaN) uw →
  map_Forall (λ _ w, Num.between (interestValueFloor self) w (Fin 1))
    (updateWeights self interests uw).
Proof.
  intros Ht Huw. unfold updateWeights.
  apply add_missing_Forall; [by apply initialValue_between|].
  intros k w. rewrite map_lookup_imap.
  destruct (uw !! k) as [old|] eqn:E; simpl; [|done].
  intros [= <-]. apply filtered_between; [done|]. by apply (Huw k).
Qed.

End UpdateWeights.

Lemma between_Fin (fl : Q) (w : num) :
  Num.between (Fin fl) w (Fin 1) → ∃ q, w = Fin q ∧ (fl <= q <= 1)%Q.
Proof.
  intros [H1 H2]. destruct w as [| | |q]; try done.
  exists q. simpl in *. qprop. done.
Qed.

Lemma between_positive_truthy (fl : Q) (w : num) :
  (0 < fl)%Q → Num.between (Fin fl) w (Fin 1) → Num.truthy w = true.
Proof.
  intros Hfl Hw. destruct (between_Fin fl w Hw) as (q & -> & Hq1 & Hq2).
  simpl. unfold Num.zerob. qcases; qprop; [lra|done].
Qed.

(** *** How the second loop treats one key *)

Lemma add_missing_lookup_truthy (self : instance) (k : string) (w : num)
    (interests : list string) :
  Num.truthy w = true →
  ∀ uw : gmap string num,
    uw !! k = Some w → add_missing self uw interests !! k = Some w.
Proof.
  intros Hw. unfold add_missing.
  induction interests as [|i interests IH]; intros uw Hk; cbn [foldl]; [done|].
  apply IH. destruct (decide (i = k)) as [->|Hne].
  - by rewrite Hk, Hw.
  - destruct (uw !! i) as [x|];
      [destruct (Num.truthy x); [done|]|destruct (inherited i); [done|]];
      by rewrite lookup_insert_ne.
Qed.

Lemma add_missing_lookup_notin (self : instance) (k : string)
    (interests : list string) :
  k ∉ interests →
  ∀ uw : gmap string num, add_missing self uw interests !! k = uw !! k.
Proof.
  unfold add_missing.
  induction interests as [|i interests IH]; intros Hk uw; cbn [foldl]; [done|].
  apply not_elem_of_cons in Hk as [Hne Hk]. rewrite IH by done.
  destruct (uw !! i) as [x|];
    [destruct (Num.truthy x); [done|]|destruct (inherited i); [done|]];
    by rewrite lookup_insert_ne.
Qed.

Lemma add_missing_step (self : instance) (uw : gmap string num) (i : string)
    (interests : list string) :
  add_missing self uw (i :: interests)
  = add_missing self
      match uw !! i with
      | Some w => if Num.truthy w then uw else <[i := initialValue self]> uw
      | None => if inherited i then uw else <[i := initialValue self]> uw
      end interests.
Proof. reflexivity. Qed.

Lemma add_missing_lookup_falsy (self : instance) (k : string)
    (interests : list string) :
  Num.truthy (initialValue self) = true →
  k ∈ interests →
  ∀ (uw : gmap string num) (x : num),
    uw !! k = Some x → Num.truthy x = false →
    add_missing self uw interests !! k = Some (initialValue self).
Proof.
  intros Hiv.
  induction interests as [|i interests IH]; intros Hk uw x Hx Hf.
  - by apply elem_of_nil in Hk.
  - rewrite add_missing_step.
    destruct (decide (i = k)) as [->|Hne].
    + rewrite Hx, Hf. apply add_missing_lookup_truthy; [done|].
      by rewrite lookup_insert_eq.
    + apply elem_of_cons in Hk as [->|Hk]; [done|].
      apply (IH Hk _ x); [|done].
      destruct (uw !! i) as [y|];
        [destruct (Num.truthy y); [done|]|destruct (inherited i); [done|]];
        by rewrite lookup_insert_ne.
Qed.

(** A key without own property is added when it is clicked, unless it
    names an inherited member. *)
Lemma add_missing_lookup_absent (self : instance) (k : string)
    (interests : list string) :
  Num.truthy (initialValue self) = true →
  ∀ uw : gmap string num,
    uw !! k = None →
    add_missing self uw interests !! k
    = if bool_decide (k ∈ interests) && negb (inherited k)
      then Some (initialValue self) else None.
Proof.
  intros Hiv.
  induction interests as [|i interests IH]; intros uw Hk.
  - unfold add_missing. cbn [foldl]. rewrite Hk.
    case_bool_decide as H; [by apply elem_of_nil in H|done].
  - rewrite add_missing_step.
    destruct (decide (i = k)) as [->|Hne].
    + rewrite Hk. destruct (inherited k) eqn:Hinh.
      * rewrite IH by done. by rewrite !andb_false_r.
      * rewrite (add_missing_lookup_truthy self k (initialValue self)) ;
          [|done|by rewrite lookup_insert_eq].
        rewrite bool_decide_eq_true_2; [done|]. by left.
    + rewrite IH.
      * by rewrite (elem_of_cons_other k i) by done.
      * destruct (uw !! i) as [y|];
          [destruct (Num.truthy y); [done|]|destruct (inherited i); [done|]];
          by rewrite lookup_insert_ne.
Qed.

(** Under the default configuration a weight that is a number comes out of
    [updateWeights] filtered and clamped. *)
Lemma updateWeights_default_lookup (interests : list string)
    (uw : gmap string num) (k : string) (old : num) :
  uw !! k = Some old → old ≠ NaN →
  updateWeights NewPersonalize interests uw !! k
  = Some (filtered NewPersonalize interests k old).
Proof.
  intros Hk Hold. unfold updateWeights.
  apply add_missing_lookup_truthy.
  - apply (between_positive_truthy (1 # 10)); [lra|].
    by apply (filtered_between NewPersonalize interests k old tuned_NewPersonalize).
  - by rewrite map_lookup_imap, Hk.
Qed.

(** C4 (as amended).  Under the default configuration, whatever was clicked
    and whatever weight map is given, every weight [updateWeights] returns
    is [NaN] or lies in [[0.1, 1]].  A key already present whose weight is
    a number holds [0.95 * old + (1 - 0.95) * target] clamped into
    [[0.1, 1]], with target [hitValue = 2] for a clicked key and
    [missValue = 0.0001] otherwise; a weight that is [NaN] stays [NaN], or
    becomes [initialValue = 0.5] when it is clicked.  A clicked identifier
    that was absent holds [initialValue = 0.5], unless it names a member of
    [Object.prototype]: then, as for every other absent key, nothing is
    added. *)
Theorem updateWeights_default_clamped (interests : list string)
    (userWeights : gmap string num) :
  let uw' := updateWeights NewPersonalize interests userWeights in
  (∀ k w, uw' !! k = Some w → w = NaN ∨ Num.between (Fin (1 # 10)) w (Fin 1))
  ∧ (∀ k old, userWeights !! k = Some old → old ≠ NaN →
       Num.between (Fin (1 # 10)) (filtered NewPersonalize interests k old) (Fin 1)
       ∧ uw' !! k
         = Some (Num.min (Fin 1)
                   (Num.max (Fin (1 # 10))
                      (Num.add (Num.mul (Fin (95 # 100)) old)
                         (Num.mul (Num.sub (Fin 1) (Fin (95 # 100)))
                            (if bool_decide (k ∈ interests)
                             then Fin 2 else Fin (1 # 10000)))))))
  ∧ (∀ k, userWeights !! k = Some NaN →
       uw' !! k = Some (if bool_decide (k ∈ interests) then Fin (1 # 2) else NaN))
  ∧ (∀ k, userWeights !! k = None → k ∈ interests → k ∉ Object_prototype →
       uw' !! k = Some (Fin (1 # 2)))
  ∧ (∀ k, userWeights !! k = None → k ∉ interests ∨ k ∈ Object_prototype →
       uw' !! k = None).
Proof.
  intros uw'.
  assert (Hpresent : ∀ k old, userWeights !! k = Some old → old ≠ NaN →
            Num.between (Fin (1 # 10))
              (filtered NewPersonalize interests k old) (Fin 1)
            ∧ uw' !! k = Some (filtered NewPersonalize interests k old)).
  { intros k old Hk Hold. split.
    - by apply (filtered_between NewPersonalize interests k old
                  tuned_NewPersonalize).
    - by apply updateWeights_default_lookup. }
  assert (HNaN : ∀ k, userWeights !! k = Some NaN →
            uw' !! k
            = Some (if bool_decide (k ∈ interests) then Fin (1 # 2) else NaN)).
  { intros k Hk. subst uw'. unfold updateWeights.
    assert (Hf : map_imap (λ k score,
                    Some (filtered NewPersonalize interests k score))
                   userWeights !! k = Some NaN).
    { by rewrite map_lookup_imap, Hk; simpl; rewrite filtered_NaN. }
    case_bool_decide as Hin.
    - by apply (add_missing_lookup_falsy NewPersonalize k interests eq_refl
                  Hin _ NaN).
    - by rewrite add_missing_lookup_notin. }
  assert (Habsent : ∀ k, userWeights !! k = None →
            uw' !! k
            = if bool_decide (k ∈ interests) && negb (inherited k)
              then Some (Fin (1 # 2)) else None).
  { intros k Hk. subst uw'. unfold updateWeights.
    apply (add_missing_lookup_absent NewPersonalize k interests eq_refl).
    by rewrite map_lookup_imap, Hk. }
  split; [|split; [|split; [|split]]].
  - intros k w Hw. destruct (userWeights !! k) as [old|] eqn:Hk.
    + destruct old as [| | |q] eqn:Hold.
      * rewrite (HNaN k Hk) in Hw. injection Hw as <-.
        destruct (bool_decide (k ∈ interests)); [right|by left].
        split; reflexivity.
      * destruct (Hpresent k NInf Hk) as [Hb Hl]; [done|].
        rewrite Hl in Hw. injection Hw as <-. by right.
      * destruct (Hpresent k PInf Hk) as [Hb Hl]; [done|].
        rewrite Hl in Hw. injection Hw as <-. by right.
      * destruct (Hpresent k (Fin q) Hk) as [Hb Hl]; [done|].
        rewrite Hl in Hw. injection Hw as <-. by right.
    + rewrite (Habsent k Hk) in Hw.
      destruct (bool_decide (k ∈ interests) && negb (inherited k)); [|done].
      injection Hw as <-. right. split; reflexivity.
  - intros k old Hk Hold. destruct (Hpresent k old Hk Hold) as [Hb Hl].
    split; [exact Hb|exact Hl].
  - exact HNaN.
  - intros k Hk Hin Hp. rewrite (Habsent k Hk).
    rewrite bool_decide_eq_true_2 by done.
    unfold inherited. by rewrite bool_decide_eq_false_2.
  - intros k Hk Hor. rewrite (Habsent k Hk). destruct Hor as [Hout|Hp].
    + by rewrite bool_decide_eq_false_2.
    + unfold inherited. rewrite (bool_decide_eq_true_2 _ Hp).
      by rewrite andb_false_r.
Qed.

(** A click on the interests [a], [c] and [toString] with the weights
    [a = 0.5], [b = 0.5] and [n = NaN]. *)
Lemma updateWeights_default_clamped_witness :
  let interests := ["a"; "c"; "toString"] in
  let uw : gmap string num :=
    <["a" := Fin (1 # 2)]> (<["b" := Fin (1 # 2)]> (<["n" := NaN]> ∅)) in
  let uw' := updateWeights NewPersonalize interests uw in
  (∀ k w, uw' !! k = Some w → w = NaN ∨ Num.between (Fin (1 # 10)) w (Fin 1))
  ∧ (∀ k old, uw !! k = Some old → old ≠ NaN →
       Num.between (Fin (1 # 10)) (filtered NewPersonalize interests k old) (Fin 1)
       ∧ uw' !! k
         = Some (Num.min (Fin 1)
                   (Num.max (Fin (1 # 10))
                      (Num.add (Num.mul (Fin (95 # 100)) old)
                         (Num.mul (Num.sub (Fin 1) (Fin (95 # 100)))
                            (if bool_decide (k ∈ interests)
                             then Fin 2 else Fin (1 # 10000)))))))
  ∧ (∀ k, uw !! k = Some NaN →
       uw' !! k = Some (if bool_decide (k ∈ interests) then Fin (1 # 2) else NaN))
  ∧ (∀ k, uw !! k = None → k ∈ interests → k ∉ Object_prototype →
       uw' !! k = Some (Fin (1 # 2)))
  ∧ (∀ k, uw !! k = None → k ∉ interests ∨ k ∈ Object_prototype →
       uw' !! k = None).
Proof.
  intros interests uw.
  apply (updateWeights_default_clamped interests uw).
Defined.

(** C4, counterexample.  A weight that is [NaN] comes back [NaN], which is
    not within [[0.1, 1]]; and the clicked identifier [constructor], absent
    from the weights, is not inserted. *)
Lemma updateWeights_default_not_always_clamped :
  let uw : gmap string num := <["a" := NaN]> ∅ in
  updateWeights NewPersonalize ["b"] uw !! "a" = Some NaN
  ∧ ¬ Num.between (Fin (1 # 10)) NaN (Fin 1)
  ∧ updateWeights NewPersonalize ["constructor"] ∅ !! "constructor" = None.
Proof.
  cbv zeta. split; [vm_compute; reflexivity|].
  split; [by intros [H _]|vm_compute; reflexivity].
Qed.

(** ** Load, update, save *)

Lemma getWeights_not_NaN (w : world) :
  tuned (this w) → map_Forall (λ _ x, x ≠ NaN) (getWeights w).
Proof.
  intros Ht k x. unfold getWeights.
  destruct (localStorage w) as [v|]; rewrite lookup_fmap.
  - destruct (v !! k); simpl; [by intros [= <-]|done].
  - destruct (defaultInterests (this w) !! k) as [d|]; simpl; [|done].
    intros [= <-]. unfold Num.or_else.
    destruct (Num.truthy (default NaN (weight d))) eqn:E.
    + intros Hn. rewrite Hn in E. done.
    + unfold tuned in Ht.
      destruct (filterConst (this w)), (hitValue (this w)), (missValue (this w)),
        (interestValueFloor (this w)), (initialValue (this w)),
        (initialWeight (this w)); done.
Qed.

(** C3 (as amended).  What [click] saves is the updated map, and under
    tunables that are finite, with a positive filter constant and
    [initialValue] within [[interestValueFloor, 1]], every weight saved lies
    in [[interestValueFloor, 1]].  The map [getWeights] synthesizes when
    nothing is stored holds, for each key of the default interest table,
    that entry's [weight] if it is non-zero and [initialWeight] otherwise,
    as it is: it is not clamped to the floor. *)
Theorem click_saves_clamped_weights (uid : string) (interests : list string)
    (w : world) :
  tuned (this w) →
  (∃ m fl,
     localStorage (click uid interests w) = Some m
     ∧ interestValueFloor (this w) = Fin fl
     ∧ ∀ k q, m !! k = Some q → (fl <= q <= 1)%Q)
  ∧ (localStorage w = None →
     ∀ k, getWeights w !! k
          = (λ d, Num.or_else (default NaN (weight d)) (initialWeight (this w)))
              <$> defaultInterests (this w) !! k).
Proof.
  intros Ht. split.
  - pose proof (updateWeights_between (this w) interests (getWeights w) Ht
                  (getWeights_not_NaN w Ht)) as Hb.
    assert (∃ fl, interestValueFloor (this w) = Fin fl) as [fl Hfl].
    { unfold tuned in Ht.
      destruct (filterConst (this w)), (hitValue (this w)), (missValue (this w)),
        (interestValueFloor (this w)); try done. eauto. }
    eexists _, fl. split; [reflexivity|]. split; [exact Hfl|].
    intros k q. rewrite lookup_fmap.
    destruct (updateWeights (this w) interests (getWeights w) !! k) as [x|] eqn:E;
      simpl; [|done].
    intros [= <-]. specialize (Hb k x E). rewrite Hfl in Hb.
    destruct (between_Fin fl x Hb) as (q & -> & Hq). exact Hq.
  - intros Hnone k. unfold getWeights. rewrite Hnone. apply lookup_fmap.
Qed.

(** A first click, on interest [a], with nothing stored and a default table
    of two interests. *)
Lemma click_saves_clamped_weights_witness :
  let table : gmap string default_interest :=
    <["a" := DefaultInterest "A" (Some (Fin (65 # 1000)))]>
      (<["b" := DefaultInterest "B" None]> ∅) in
  let w :=
    World (setup NewPersonalize (JArr []) (Settings.Make None None None) table)
      None None in
  (∃ m fl,
     localStorage (click "u" ["a"] w) = Some m
     ∧ interestValueFloor (this w) = Fin fl
     ∧ ∀ k q, m !! k = Some q → (fl <= q <= 1)%Q)
  ∧ (localStorage w = None →
     ∀ k, getWeights w !! k
          = (λ d, Num.or_else (default NaN (weight d)) (initialWeight (this w)))
              <$> defaultInterests (this w) !! k).
Proof.
  intros table w.
  apply (click_saves_clamped_weights "u" ["a"] w).
  unfold tuned. simpl. lra.
Defined.

(** C3, counterexample.  With nothing stored, [getWeights] gives an
    interest of the default table without a [weight] the weight 0.001, and
    one with [weight = 0.065] the weight 0.065: both below the floor 0.1. *)
Lemma getWeights_seed_below_floor :
  let table : gmap string default_interest :=
    <["a" := DefaultInterest "A" (Some (Fin (65 # 1000)))]>
      (<["b" := DefaultInterest "B" None]> ∅) in
  let w :=
    World (setup NewPersonalize (JArr []) (Settings.Make None None None) table)
      None None in
  getWeights w !! "b" = Some (Fin (1 # 1000))
  ∧ getWeights w !! "a" = Some (Fin (65 # 1000))
  ∧ ¬ Num.between (interestValueFloor (this w)) (Fin (1 # 1000)) (Fin 1)
  ∧ ¬ Num.between (interestValueFloor (this w)) (Fin (65 # 1000)) (Fin 1).
Proof.
  cbv zeta. split; [vm_compute; reflexivity|]. split; [vm_compute; reflexivity|].
  split; intros [H _]; vm_compute in H; discriminate H.
Qed.

(** ** Sampling with a zero score sum *)


Lemma div_by_zero (s : num) (z : Q) :
  (z == 0)%Q → infinite_or_NaN (Num.div s (Fin z)).
Proof.
  intros Hz. unfold infinite_or_NaN.
  assert (Hz1 : Num.zerob z = true) by by apply Qeq_bool_iff.
  assert (Hz2 : Num.negb_q z = false).
  { unfold Num.negb_q. apply negb_false_iff, Qle_bool_iff. lra. }
  destruct s as [| | |x]; simpl; rewrite ?Hz1, ?Hz2; auto.
  unfold Num.inf_of_sign. destruct (Num.zerob x), (Num.negb_q x); auto.
Qed.

(** Once the running sum is [NaN] or [-Infinity] and the random value is
    above it, no later item is reached. *)
Lemma getSelection_loop_stuck (l : list lookbook) (r : num) (z : Q) :
  (z == 0)%Q →
  ∀ (rs : num) (i : nat),
    r = NaN ∨ ((rs = NaN ∨ rs = NInf) ∧ Num.leb r rs = false) →
    getSelection_loop l r (Fin z) rs i = 0%nat.
Proof.
  intros Hz. induction l as [|x l IH]; intros rs i H; simpl; [done|].
  pose proof (div_by_zero (lkbk_score x) z Hz) as Ht.
  destruct H as [->|[Hrs Hle]].
  - simpl. apply IH. by left.
  - set (t := Num.div (lkbk_score x) (Fin z)) in *.
    assert (Hrs' : (Num.add rs t = NaN ∨ Num.add rs t = NInf)
                   ∧ Num.leb r (Num.add rs t) = false).
    { destruct Hrs as [->| ->], Ht as [->|[->| ->]]; simpl; auto.
      all: split; [auto|]; by destruct r. }
    destruct Hrs' as [Hrs' Hle']. rewrite Hle'. apply IH. by right.
Qed.

(** C5.  On a pool that is not empty and whose scores sum to zero,
    [getSelection] returns index 0 whatever value the random source gave,
    and the round goes through: [updateChoices] at that index is no
    [TypeError] and hands back the first lookbook of the pool. *)
Theorem getSelection_zero_sum (self : instance) (lookbooks : list lookbook)
    (userWeights : gmap string num) (randomChoice : num) (z : Q) :
  lookbooks ≠ [] → scoreSum lookbooks = Fin z → (z == 0)%Q →
  ∃ first,
    lookbooks !! 0%nat = Some first
    ∧ (getSelection self lookbooks randomChoice).1 = 0%nat
    ∧ (has_interests first →
       ∃ update,
         updateChoices (getSelection self lookbooks randomChoice).2 lookbooks
           userWeights (getSelection self lookbooks randomChoice).1
         = Some update
         ∧ Update.lookbook update = first).
Proof.
  intros Hne Hsum Hz.
  destruct lookbooks as [|x l]; [done|]. exists x. split; [done|].
  assert (Hidx : (getSelection self (x :: l) randomChoice).1 = 0%nat).
  { unfold getSelection. cbn [fst]. rewrite Hsum. cbn [getSelection_loop].
    pose proof (div_by_zero (lkbk_score x) z Hz) as Ht.
    set (t := Num.div (lkbk_score x) (Fin z)) in *.
    destruct (Num.leb randomChoice (Num.add (Fin 0) t)) eqn:Hle; [done|].
    apply getSelection_loop_stuck; [done|].
    destruct Ht as [Ht|[Ht|Ht]]; rewrite Ht in *; simpl in *.
    - right. auto.
    - right. auto.
    - left. by destruct randomChoice. }
  split; [exact Hidx|].
  intros [ints Hints]. rewrite Hidx.
  destruct (updateChoices_Some (getSelection self (x :: l) randomChoice).2
              (x :: l) userWeights 0 x ints eq_refl Hints) as (u & Hu & Hx & _).
  eauto.
Qed.

(** Scores 2, -2 and 0, random value 0.9. *)
Lemma getSelection_zero_sum_witness :
  let a := Lookbook "a" (Some ["x"]) None false (Fin 2) in
  let b := Lookbook "b" (Some ["y"]) None false (Fin (-2)) in
  let c := Lookbook "c" (Some ["z"]) None false (Fin 0) in
  ∃ first,
    [a; b; c] !! 0%nat = Some first
    ∧ (getSelection NewPersonalize [a; b; c] (Fin (9 # 10))).1 = 0%nat
    ∧ (has_interests first →
       ∃ update,
         updateChoices (getSelection NewPersonalize [a; b; c] (Fin (9 # 10))).2
           [a; b; c] ∅ (getSelection NewPersonalize [a; b; c] (Fin (9 # 10))).1
         = Some update
         ∧ Update.lookbook update = first).
Proof.
  intros a b c.
  apply (getSelection_zero_sum NewPersonalize [a; b; c] ∅ (Fin (9 # 10))
           (0 + 2 + -2 + 0)%Q); [done|reflexivity|reflexivity].
Defined.

(** All scores zero, as [score] can produce them, and a random value of 0. *)
Example getSelection_all_zero :
  let a := Lookbook "a" (Some ["x"]) None false (Fin 0) in
  let b := Lookbook "b" (Some ["y"]) None false (Fin 0) in
  (getSelection NewPersonalize [a; b] (Fin 0)).1 = 0%nat
  ∧ (getSelection NewPersonalize [a; b] (Fin (99 # 100))).1 = 0%nat.
Proof. split; reflexivity. Qed.

(** ** Sampling two items with scores 3 : 1 *)

(** C7 (as amended).  For a pool of two lookbooks whose scores are in ratio
    3 : 1 and a random value [r] in [[0, 1)], [getSelection] returns the
    first exactly when [r <= 0.75] and the second exactly when
    [0.75 < r]: the pick is the first item whose cumulative share is at
    least [r]. *)
Theorem getSelection_three_to_one (self : instance) (a b : lookbook)
    (x y r : Q) :
  lkbk_score a = Fin x → lkbk_score b = Fin y →
  (x == 3 * y)%Q → ¬ (y == 0)%Q → (0 <= r)%Q → (r < 1)%Q →
  ((getSelection self [a; b] (Fin r)).1 = 0%nat ↔ (r <= 3 # 4)%Q)
  ∧ ((getSelection self [a; b] (Fin r)).1 = 1%nat ↔ (3 # 4 < r)%Q).
Proof.
  intros Ha Hb Hx Hy Hr0 Hr1.
  unfold getSelection, scoreSum. simpl. rewrite Ha, Hb. simpl.
  assert (Hs : ¬ (0 + x + y == 0)%Q) by (rewrite Hx; lra).
  assert (Hz : Num.zerob (0 + x + y) = false).
  { unfold Num.zerob. destruct (Qeq_bool (0 + x + y) 0) eqn:E; [|done].
    by apply Qeq_bool_iff in E. }
  rewrite Hz.
  assert (H1 : (0 + x / (0 + x + y) == 3 # 4)%Q).
  { rewrite Hx. field. lra. }
  assert (H2 : (0 + x / (0 + x + y) + y / (0 + x + y) == 1)%Q).
  { rewrite Hx. field. lra. }
  destruct (Qle_bool r (0 + x / (0 + x + y))) eqn:E1.
  - apply Qle_bool_iff in E1. rewrite H1 in E1.
    split; split; try done; intros; lra.
  - apply Qle_bool_false in E1. rewrite H1 in E1.
    assert (E2 : Qle_bool r (0 + x / (0 + x + y) + y / (0 + x + y)) = true).
    { apply Qle_bool_iff. rewrite H2. lra. }
    cbn [Num.add]. rewrite E2. split; split; try done; intros; lra.
Qed.

Lemma getSelection_three_to_one_witness :
  let a := Lookbook "a" (Some ["x"]) None false (Fin 3) in
  let b := Lookbook "b" (Some ["y"]) None false (Fin 1) in
  ((getSelection NewPersonalize [a; b] (Fin (8 # 10))).1 = 0%nat
   ↔ (8 # 10 <= 3 # 4)%Q)
  ∧ ((getSelection NewPersonalize [a; b] (Fin (8 # 10))).1 = 1%nat
     ↔ (3 # 4 < 8 # 10)%Q).
Proof.
  intros a b.
  apply (getSelection_three_to_one NewPersonalize a b 3 1 (8 # 10));
    [reflexivity|reflexivity|reflexivity|discriminate|discriminate|reflexivity].
Defined.

(** C7, counterexample.  With scores 3 and 1 and [r = 0.75] the first
    lookbook is picked, and 0.75 is not in [[0, 0.75)]. *)
Lemma getSelection_boundary_picks_first :
  let a := Lookbook "a" (Some ["x"]) None false (Fin 3) in
  let b := Lookbook "b" (Some ["y"]) None false (Fin 1) in
  (getSelection NewPersonalize [a; b] (Fin (3 # 4))).1 = 0%nat
  ∧ ¬ (3 # 4 < 3 # 4)%Q.
Proof. split; [reflexivity|]. intros H. discriminate H. Qed.

(** ** Deprioritization in [updateChoices] *)


Lemma updateChoices_userWeights (self : instance) (l : list lookbook)
    (uw : gmap string num) (index : nat) (u : Update.t) :
  updateChoices self l uw index = Some u →
  ∃ x ints, l !! index = Some x ∧ lkbk_interests x = Some ints
            ∧ Update.userWeights u = deprioritize self uw ints.
Proof.
  unfold updateChoices. destruct (l !! index) as [x|]; [|done].
  destruct (lkbk_interests x) as [ints|] eqn:E; [|done].
  intros [= <-]. by exists x, ints.
Qed.

Lemma deprioritize_NaN_stays (self : instance) (i : string) (ints : list string) :
  ∀ uw : gmap string num,
    uw !! i = Some NaN → deprioritize self uw ints !! i = Some NaN.
Proof.
  unfold deprioritize.
  induction ints as [|j ints IH]; intros uw H; cbn [foldl]; [done|].
  apply IH. destruct (decide (j = i)) as [->|Hne].
  - rewrite lookup_insert_eq. unfold number_at. by rewrite H.
  - by rewrite lookup_insert_ne.
Qed.

Lemma deprioritize_absent (self : instance) (i : string) (ints : list string) :
  ∀ uw : gmap string num,
    uw !! i = None → i ∈ ints → deprioritize self uw ints !! i = Some NaN.
Proof.
  induction ints as [|j ints IH]; intros uw H Hin.
  - by apply elem_of_nil in Hin.
  - change (deprioritize self uw (j :: ints))
      with (deprioritize self
              (<[j := Num.mul (number_at uw j)
                        (Num.sub (Fin 1) (deprioritization self))]> uw) ints).
    destruct (decide (j = i)) as [->|Hne].
    + apply deprioritize_NaN_stays.
      rewrite lookup_insert_eq. unfold number_at. by rewrite H.
    + apply IH; [by rewrite lookup_insert_ne|].
      apply elem_of_cons in Hin as [->|Hin]; done.
Qed.

(** X26.  With each interest listed once, every interest of the chosen lookbook
    has its entry multiplied by [1 - deprioritization], and the other
    entries are left as they were. *)
Lemma deprioritize_lookup (self : instance) (ints : list string) :
  NoDup ints →
  ∀ (uw : gmap string num) (k : string),
    deprioritize self uw ints !! k
    = if bool_decide (k ∈ ints)
      then Some (Num.mul (number_at uw k)
                   (Num.sub (Fin 1) (deprioritization self)))
      else uw !! k.
Proof.
  induction 1 as [|j ints Hj Hnd IH]; intros uw k.
  - unfold deprioritize. cbn [foldl].
    case_bool_decide as H; [by apply elem_of_nil in H|done].
  - change (deprioritize self uw (j :: ints))
      with (deprioritize self
              (<[j := Num.mul (number_at uw j)
                        (Num.sub (Fin 1) (deprioritization self))]> uw) ints).
    rewrite IH. destruct (decide (k = j)) as [->|Hne].
    + rewrite (bool_decide_eq_false_2 (j ∈ ints)) by done.
      rewrite (bool_decide_eq_true_2 (j ∈ j :: ints)) by (by left).
      by rewrite lookup_insert_eq.
    + rewrite (bool_decide_ext (k ∈ j :: ints) (k ∈ ints));
        [|rewrite elem_of_cons; split; [by intros [?|?]|by right]].
      unfold number_at. by rewrite lookup_insert_ne.
Qed.

(** An interest listed [n] times has its entry multiplied [n] times, the
    first time from what the read of the entry yields. *)
Lemma deprioritize_times (self : instance) (ints : list string) :
  ∀ (uw : gmap string num) (k : string),
    deprioritize self uw ints !! k
    = match count_occ String.string_dec ints k with
      | O => uw !! k
      | S n =>
          Some (Nat.iter (S n)
                  (λ w, Num.mul w (Num.sub (Fin 1) (deprioritization self)))
                  (number_at uw k))
      end.
Proof.
  induction ints as [|j ints IH]; intros uw k; [done|].
  change (deprioritize self uw (j :: ints))
    with (deprioritize self
            (<[j := Num.mul (number_at uw j)
                      (Num.sub (Fin 1) (deprioritization self))]> uw) ints).
  rewrite IH. destruct (decide (j = k)) as [->|Hne].
  - rewrite count_occ_cons_eq by done.
    set (f := λ w, Num.mul w (Num.sub (Fin 1) (deprioritization self))).
    assert (Hk : number_at (<[k := f (number_at uw k)]> uw) k
                 = f (number_at uw k)).
    { unfold number_at at 1. by rewrite lookup_insert_eq. }
    fold (f (number_at uw k)). rewrite Hk, lookup_insert_eq.
    destruct (count_occ String.string_dec ints k) as [|n]; [done|].
    by rewrite (Nat.iter_succ_r (S n)).
  - rewrite count_occ_cons_neq by done.
    unfold number_at. by rewrite !lookup_insert_ne.
Qed.

(** C10.  [updateChoices] at a lookbook with interests returns a working copy
    of the weights in which an interest of the lookbook that is not a key
    of the weights handed in is mapped to [NaN], whereas a key of those
    weights is mapped to its value multiplied by [1 - deprioritization],
    once for each time the lookbook lists it (not at all when it does not),
    and no other key is added. *)
Theorem updateChoices_deprioritized_copy (self : instance)
    (lookbooks : list lookbook) (userWeights : gmap string num) (index : nat)
    (lkbk : lookbook) (interests : list string) :
  lookbooks !! index = Some lkbk →
  lkbk_interests lkbk = Some interests →
  ∃ update,
    updateChoices self lookbooks userWeights index = Some update
    ∧ (∀ i, i ∈ interests → userWeights !! i = None →
         Update.userWeights update !! i = Some NaN)
    ∧ (∀ i v, userWeights !! i = Some v →
         Update.userWeights update !! i
         = Some (Nat.iter (count_occ String.string_dec interests i)
                   (λ w, Num.mul w (Num.sub (Fin 1) (deprioritization self)))
                   v))
    ∧ (∀ i, i ∉ interests → userWeights !! i = None →
         Update.userWeights update !! i = None).
Proof.
  intros Hl Hints.
  destruct (updateChoices_Some self lookbooks userWeights index lkbk interests
              Hl Hints) as (u & Hu & _ & _).
  exists u. split; [exact Hu|].
  destruct (updateChoices_userWeights _ _ _ _ _ Hu) as (x & ints & Hx & Hxi & ->).
  rewrite Hl in Hx. injection Hx as <-. rewrite Hints in Hxi.
  injection Hxi as <-. repeat split.
  - intros i Hi Hnone. by apply deprioritize_absent.
  - intros i v Hv. rewrite deprioritize_times. unfold number_at. rewrite Hv.
    by destruct (count_occ String.string_dec interests i).
  - intros i Hi Hnone. rewrite deprioritize_times.
    rewrite (proj1 (count_occ_not_In String.string_dec interests i)); [done|].
    intros H. by apply Hi, list_elem_of_In.
Qed.

(** A lookbook with interests [x], [y] and [x] again, and weights that know
    [x] and [z]: [y] becomes [NaN], [x] is multiplied twice, [z] is kept. *)
Lemma updateChoices_deprioritized_copy_witness :
  let a := Lookbook "a" (Some ["x"; "y"; "x"]) None false (Fin 1) in
  let uw : gmap string num := <["x" := Fin (1 # 2)]> (<["z" := Fin 1]> ∅) in
  ∃ update,
    updateChoices NewPersonalize [a] uw 0 = Some update
    ∧ (∀ i, i ∈ ["x"; "y"; "x"] → uw !! i = None →
         Update.userWeights update !! i = Some NaN)
    ∧ (∀ i v, uw !! i = Some v →
         Update.userWeights update !! i
         = Some (Nat.iter (count_occ String.string_dec ["x"; "y"; "x"] i)
                   (λ w, Num.mul w
                           (Num.sub (Fin 1) (deprioritization NewPersonalize)))
                   v))
    ∧ (∀ i, i ∉ ["x"; "y"; "x"] → uw !! i = None →
         Update.userWeights update !! i = None).
Proof.
  intros a uw.
  apply (updateChoices_deprioritized_copy NewPersonalize [a] uw 0 a
           ["x"; "y"; "x"]); reflexivity.
Defined.

(** The same call by evaluation: 0.5 becomes 0.5 * (1 - 0.2) * (1 - 0.2). *)
Example updateChoices_present_interest :
  let a := Lookbook "a" (Some ["x"; "y"; "x"]) None false (Fin 1) in
  let uw : gmap string num := <["x" := Fin (1 # 2)]> (<["z" := Fin 1]> ∅) in
  Update.userWeights <$> updateChoices NewPersonalize [a] uw 0
  = Some (<["x" := Fin ((1 # 2) * (1 + - (2 # 10)) * (1 + - (2 # 10)))]>
            (<["y" := NaN]> (<["z" := Fin 1]> ∅))).
Proof. vm_compute. reflexivity. Qed.

(** ** Sanitization *)


Lemma cleanup_loop_filter (l result : list jsval) :
  cleanup_loop l result = result ++ List.filter well_formed_entry l.
Proof.
  revert result. induction l as [|v l IH]; intros result.
  - simpl. by rewrite app_nil_r.
  - cbn [cleanup_loop List.filter].
    destruct v as [| | | | |a|fields]; cbn; try apply IH.
    destruct (Js.assoc "uid" fields); cbn; try apply IH.
    destruct (Js.assoc "interests" fields) as [| | | | |[|i ints]|]; cbn;
      try apply IH.
    rewrite IH, <- app_assoc. reflexivity.
Qed.

Lemma cleanup_filter (l : list jsval) :
  cleanup (JArr l) = List.filter well_formed_entry l.
Proof. unfold cleanup. by rewrite cleanup_loop_filter. Qed.

Lemma filter_all_false {A} (f : A → bool) (l : list A) :
  Forall (λ v, f v = false) l → List.filter f l = [].
Proof.
  induction 1 as [|v l Hv _ IH]; simpl; [done|]. by rewrite Hv.
Qed.

Section Choose.

Variable pow : num → num → num.

Lemma performChoose_nothing_left (posts : jsval) (rand : nat → num) (w : world) :
  cleanup posts = [] → (performChoose pow posts rand w).1 = Some [].
Proof.
  intros H. unfold performChoose. rewrite H.
  assert (Hs : Js.slice0 ([] : list jsval) (maxConsidered (this w)) = []).
  { unfold Js.slice0. destruct (_ <? _); apply take_nil. }
  rewrite Hs. cbn [mapM]. cbn.
  unfold getList. cbn [getList_split length].
  replace (Z.to_nat (Z.min (count (this w) - Z.of_nat 0) (Z.of_nat 0)))
    with 0%nat by lia.
  reflexivity.
Qed.

(** C8.  A catalog that is not an array, or an array none of whose
    entries is well formed, makes [choose] return the empty list (and not
    fail); and sanitizing an array keeps exactly its well-formed entries,
    in their order. *)
Theorem choose_invalid_catalog (posts : jsval) (settings : Settings.t)
    (defaultInterests : gmap string default_interest) (rand : nat → num)
    (w : world) (l : list jsval) :
  (∀ l', posts = JArr l' → Forall (λ v, well_formed_entry v = false) l') →
  (choose pow posts settings defaultInterests rand w).1 = Some []
  ∧ cleanup (JArr l) = List.filter well_formed_entry l.
Proof.
  intros H. split; [|apply cleanup_filter].
  unfold choose. apply performChoose_nothing_left.
  destruct posts as [| | | | |l'|]; try reflexivity.
  rewrite cleanup_filter. apply filter_all_false. by apply H.
Qed.

Lemma performChoose_localStorage (posts : jsval) (rand : nat → num) (w : world) :
  localStorage (performChoose pow posts rand w).2 = localStorage w.
Proof.
  unfold performChoose.
  destruct (mapM as_lookbook _) as [data|]; [|reflexivity].
  destruct (getList _ _ _ _) as [[list|] self]; reflexivity.
Qed.

(** C9.  [choose] leaves the stored weights as they were; [click] stores
    the result of [updateWeights] on what [getWeights] loaded, and the
    next [getWeights] reads that back. *)
Theorem choose_keeps_click_saves (posts : jsval) (settings : Settings.t)
    (defaultInterests : gmap string default_interest) (rand : nat → num)
    (uid : string) (interests : list string) (w : world) :
  localStorage (choose pow posts settings defaultInterests rand w).2
    = localStorage w
  ∧ localStorage (click uid interests w)
    = Some (json_number <$> updateWeights (this w) interests (getWeights w))
  ∧ getWeights (click uid interests w)
    = (λ x, Fin (json_number x))
        <$> updateWeights (this w) interests (getWeights w).
Proof.
  split; [|split].
  - unfold choose. by rewrite performChoose_localStorage.
  - reflexivity.
  - unfold click, getWeights at 1. cbn [localStorage setWeights].
    by rewrite <- map_fmap_compose.
Qed.

End Choose.

(** An array with no well-formed entry handed to [choose], and the
    sanitization of a mixed array. *)
Lemma choose_invalid_catalog_witness :
  let posts :=
    JArr [JNum (Fin 1); JNull; JObj [("uid", JStr "a")];
          JObj [("uid", JStr "b"); ("interests", JArr [])];
          JObj [("interests", JArr [JStr "x"])]] in
  let good1 := JObj [("uid", JStr "a"); ("interests", JArr [JStr "x"])] in
  let good2 := JObj [("interests", JArr [JStr "y"]); ("uid", JStr "b")] in
  (choose (λ x _, x) posts (Settings.Make None None None) ∅ (λ _, Fin 0)
     (World NewPersonalize None None)).1 = Some []
  ∧ cleanup (JArr [good1; JStr "junk"; good2])
    = List.filter well_formed_entry [good1; JStr "junk"; good2].
Proof.
  intros posts good1 good2.
  apply (choose_invalid_catalog (λ x _, x) posts (Settings.Make None None None)
           ∅ (λ _, Fin 0) (World NewPersonalize None None)
           [good1; JStr "junk"; good2]).
  intros l' [= <-]. repeat constructor.
Defined.

Example cleanup_keeps_order :
  let good1 := JObj [("uid", JStr "a"); ("interests", JArr [JStr "x"])] in
  let good2 := JObj [("interests", JArr [JStr "y"]); ("uid", JStr "b")] in
  cleanup (JArr [good1; JStr "junk"; JNull; good2; JArr []]) = [good1; good2].
Proof. reflexivity. Qed.

(** ** The list [choose] returns *)

Lemma as_lookbook_has_interests (v : jsval) (x : lookbook) :
  as_lookbook v = Some x → has_interests x ∧ lkbk_promote x = Js.truthy (Js.prop v "promote").
Proof.
  unfold as_lookbook, has_interests.
  destruct (Js.prop v "uid"); try done.
  destruct (Js.prop v "interests"); try done.
  destruct (mapM as_interest l) as [l'|]; try done.
  destruct (Js.prop v "boost"); try done; intros [= <-]; simpl; eauto.
Qed.

(** X22.  On a catalog whose sanitized entries follow the feed format, [choose]
    returns a list, no longer than the sanitized catalog cut to
    [maxConsidered]. *)
Lemma choose_length (pow : num → num → num) (posts : jsval)
    (settings : Settings.t) (table : gmap string default_interest)
    (rand : nat → num) (w : world) :
  let self := setup (this w) posts settings table in
  let data := Js.slice0 (cleanup posts) (maxConsidered self) in
  is_Some (mapM as_lookbook data) →
  ∃ result,
    (choose pow posts settings table rand w).1 = Some result
    ∧ (length result ≤ length data)%nat.
Proof.
  intros self data [typed Htyped].
  unfold choose, performChoose. cbn [this localStorage dataLayer].
  fold self. fold data. rewrite Htyped.
  set (uw := getWeights _).
  set (scored := score pow self typed uw).
  destruct (getList_returns (set_scored self scored) scored uw rand)
    as (result & Hres & _ & Hlen & _).
  { apply Forall_forall. intros x Hx _.
    apply list_elem_of_fmap in Hx as (y & -> & Hy).
    apply mapM_Some in Htyped.
    apply list_elem_of_lookup in Hy as [i Hi].
    destruct (Forall2_lookup_r _ _ _ _ _ Htyped Hi) as (v & _ & Hv).
    apply as_lookbook_has_interests in Hv as [Hv _]. exact Hv. }
  exists result.
  destruct (getList (set_scored self scored) scored uw rand) as [list self'].
  simpl in Hres. subst list. split; [reflexivity|].
  apply mapM_Some, Forall2_length in Htyped.
  unfold scored, score in Hlen. rewrite length_fmap in Hlen. lia.
Qed.

(** ** Resolution of the settings *)


(** The nine tunables [choose] resolves into the field that is read: the
    truthy override, else the value the instance holds. *)
Lemma setup_resolved (self : instance) (posts' : jsval) (settings : Settings.t)
    (table : gmap string default_interest) :
  let i := default Interest.empty (Settings.interest settings) in
  let self' := setup self posts' settings table in
  count self' = or_Z (Settings.count settings) (count self)
  ∧ maxConsidered self' = or_Z (Settings.maxConsidered settings) (maxConsidered self)
  ∧ level0Multiplier self'
    = or_num (Interest.level0_multiplier i) (level0Multiplier self)
  ∧ initialValue self' = or_num (Interest.initial i) (initialValue self)
  ∧ hitValue self' = or_num (Interest.hit i) (hitValue self)
  ∧ missValue self' = or_num (Interest.miss i) (missValue self)
  ∧ filterConst self' = or_num (Interest.filter_const i) (filterConst self)
  ∧ deprioritization self'
    = or_num (Interest.deprioritization i) (deprioritization self)
  ∧ noInterestsValue self'
    = or_num (Interest.no_interests i) (noInterestsValue self).
Proof. repeat split. Qed.

(** The merge rule: a truthy override wins; an override of [0] (or [NaN])
    is the same as no override. *)
Lemma or_num_truthy (n d : num) : Num.truthy n = true → or_num (Some n) d = n.
Proof. intros H. unfold or_num, Num.or_else. by rewrite H. Qed.

Lemma or_num_falsy (n d : num) :
  Num.truthy n = false → or_num (Some n) d = or_num None d.
Proof. intros H. unfold or_num, Num.or_else. by rewrite H. Qed.

Lemma or_Z_zero (d : Z) : or_Z (Some 0) d = or_Z None d.
Proof. reflexivity. Qed.

(** [score] depends on the instance through five fields only. *)
Lemma score_lkbk_fields (pow : num → num → num) (self1 self2 : instance)
    (userWeights : gmap string num) (x : lookbook) :
  level0Multiplier self1 = level0Multiplier self2 →
  initialValue self1 = initialValue self2 →
  defaultInterests self1 = defaultInterests self2 →
  noInterestsValue self1 = noInterestsValue self2 →
  scoreBoostExponent self1 = scoreBoostExponent self2 →
  score_lkbk pow self1 userWeights x = score_lkbk pow self2 userWeights x.
Proof.
  intros Hl Hi Hd Hn He.
  assert (Hs : ∀ ints i acc,
             score_interests self1 userWeights ints i acc
             = score_interests self2 userWeights ints i acc).
  { induction ints as [|j ints IH]; intros i acc; [done|].
    cbn [score_interests]. unfold priority, priority_default.
    rewrite Hl, Hi, Hd. apply IH. }
  unfold score_lkbk. rewrite He, Hn.
  destruct (lkbk_interests x) as [ints|]; [by rewrite Hs|done].
Qed.

(** C6.  Whatever [interest.scoreBoost] the caller supplies, the exponent
    [score] raises to is the one the instance already had, and the scores
    are those obtained without the override: [choose] stores the override
    in [scoreBoost], a field nothing reads, not in [scoreBoostExponent]. *)
Theorem choose_scoreBoost_unused (pow : num → num → num) (self : instance)
    (posts' : jsval) (settings : Settings.t)
    (table : gmap string default_interest) (e : option num)
    (lookbooks : list lookbook) (userWeights : gmap string num) :
  scoreBoostExponent (setup self posts' (with_scoreBoost e settings) table)
    = scoreBoostExponent self
  ∧ score pow (setup self posts' (with_scoreBoost e settings) table)
      lookbooks userWeights
    = score pow (setup self posts' settings table) lookbooks userWeights.
Proof.
  split; [reflexivity|].
  unfold score. apply list_fmap_ext. intros _ x _.
  apply score_lkbk_fields; destruct settings as [c m [i|]]; reflexivity.
Qed.

(** A first call of [choose] that asks for [scoreBoost = 3]: the exponent
    stays 1.9. *)
Example choose_scoreBoost_three :
  let settings :=
    Settings.Make None None
      (Some (Interest.Make None None None None None None None (Some (Fin 3)))) in
  let self := setup NewPersonalize (JArr []) settings ∅ in
  scoreBoostExponent self = Fin (19 # 10) ∧ scoreBoost self = Some (Fin 3).
Proof. split; reflexivity. Qed.

Set Warnings "-clear-no-such-hyp".

(** * Further properties *)

(** ** Sanitization *)

Lemma filter_filter_same {A} (f : A → bool) (l : list A) :
  List.filter f (List.filter f l) = List.filter f l.
Proof.
  induction l as [|x l IH]; simpl; [done|].
  destruct (f x) eqn:E; simpl; [by rewrite E, IH|done].
Qed.

(** X1.  Sanitizing what [cleanup] returned changes nothing. *)
Theorem cleanup_idempotent (lookbooks : jsval) :
  cleanup (JArr (cleanup lookbooks)) = cleanup lookbooks.
Proof.
  destruct lookbooks as [| | | | |l|]; try reflexivity.
  rewrite !cleanup_filter. apply filter_filter_same.
Qed.

(** ** Sampling without replacement *)

Lemma filter_promote_Permutation (l : list lookbook) :
  l ≡ₚ List.filter lkbk_promote l
       ++ List.filter (λ x, negb (lkbk_promote x)) l.
Proof.
  induction l as [|x l IH]; simpl; [done|].
  destruct (lkbk_promote x); simpl.
  - by constructor.
  - rewrite <- Permutation_middle. by constructor.
Qed.

(** [n] rounds take [n] lookbooks out of the pool, each at most as often as
    the pool holds it. *)
Lemma getList_loop_sampled (n : nat) :
  ∀ (i : nat) (self : instance) (pool : list lookbook) (uw : gmap string num)
    (rand : nat → num) (result : list lookbook),
    (n ≤ length pool)%nat → Forall has_interests pool →
    ∃ sampled remaining,
      (getList_loop n i self pool uw rand result).1 = Some (result ++ sampled)
      ∧ pool ≡ₚ sampled ++ remaining
      ∧ length sampled = n.
Proof.
  induction n as [|n IH]; intros i self pool uw rand result Hn Hpool.
  - exists [], pool. simpl. by rewrite app_nil_r.
  - assert (Hne : pool ≠ []) by (destruct pool; [simpl in Hn; lia|done]).
    cbn [getList_loop].
    pose proof (getSelection_in_range self pool (rand i) Hne) as Hsel.
    destruct (getSelection self pool (rand i)) as [selected self'] eqn:Hg.
    simpl in Hsel.
    destruct (lookup_lt_is_Some_2 pool selected Hsel) as [x Hx].
    assert (Hxi : has_interests x).
    { eapply Forall_forall in Hpool; [exact Hpool|].
      apply list_elem_of_lookup; eauto. }
    destruct Hxi as [ints Hints].
    destruct (updateChoices_Some self' pool uw selected x ints Hx Hints)
      as (u & -> & Hu1 & Hu2).
    destruct (IH (S i) self' (Update.lookbooks u) (Update.userWeights u) rand
                (result ++ [Update.lookbook u]))
      as (sampled & remaining & Hr & Hperm & Hlen).
    + rewrite Hu2, length_delete by eauto. lia.
    + rewrite Hu2. by apply Forall_delete.
    + exists (x :: sampled), remaining. split; [|split].
      * rewrite Hr, Hu1, <- app_assoc. reflexivity.
      * rewrite (delete_Permutation pool selected x Hx).
        simpl. constructor. by rewrite <- Hu2.
      * simpl. by rewrite Hlen.
Qed.

(** X2.  The list [getList] returns starts with the promoted lookbooks, in the
    order of the catalog, whatever their scores and the random values; what
    follows is drawn from the lookbooks that are not promoted, none more
    often than the catalog holds it. *)
Theorem getList_promoted_first (self : instance) (lookbooks : list lookbook)
    (userWeights : gmap string num) (rand : nat → num) :
  Forall (λ x, lkbk_promote x = false → has_interests x) lookbooks →
  ∃ sampled,
    (getList self lookbooks userWeights rand).1
    = Some (List.filter lkbk_promote lookbooks ++ sampled)
    ∧ sampled ⊆+ List.filter (λ x, negb (lkbk_promote x)) lookbooks.
Proof.
  intros Hints. unfold getList. rewrite getList_split_filter. simpl.
  set (prom := List.filter lkbk_promote lookbooks).
  set (pool := List.filter (λ x, negb (lkbk_promote x)) lookbooks).
  set (n := Z.to_nat _).
  destruct (getList_loop_sampled n 0 self pool userWeights rand prom)
    as (sampled & remaining & Hres & Hperm & _).
  - subst n. lia.
  - by apply Forall_filter_not_promoted.
  - exists sampled. split; [exact Hres|].
    rewrite Hperm. by apply submseteq_inserts_r.
Qed.

Lemma getList_promoted_first_witness :
  let a := Lookbook "a" (Some ["x"]) None false (Fin 3) in
  let b := Lookbook "b" None None true (Fin 0) in
  let c := Lookbook "c" (Some ["x"; "y"]) None false (Fin 1) in
  ∃ sampled,
    (getList NewPersonalize [a; b; c] ∅ (λ _, Fin (1 # 2))).1
    = Some (List.filter lkbk_promote [a; b; c] ++ sampled)
    ∧ sampled ⊆+ List.filter (λ x, negb (lkbk_promote x)) [a; b; c].
Proof.
  intros a b c.
  apply (getList_promoted_first NewPersonalize [a; b; c] ∅ (λ _, Fin (1 # 2))).
  repeat constructor; try (intros _; eexists; reflexivity).
  intros H. discriminate H.
Defined.

(** X3.  When [count] is at least the number of lookbooks, as in the caller that
    passes the length of the catalog, [getList] returns all of them: a
    reordering of the catalog. *)
Theorem getList_reorders_when_count_covers (self : instance)
    (lookbooks : list lookbook) (userWeights : gmap string num)
    (rand : nat → num) :
  Forall (λ x, lkbk_promote x = false → has_interests x) lookbooks →
  Z.of_nat (length lookbooks) ≤ count self →
  ∃ result,
    (getList self lookbooks userWeights rand).1 = Some result
    ∧ result ≡ₚ lookbooks.
Proof.
  intros Hints Hcount. unfold getList. rewrite getList_split_filter. simpl.
  pose proof (filter_promote_lengths lookbooks) as Hsum.
  pose proof (filter_promote_Permutation lookbooks) as Hall.
  set (prom := List.filter lkbk_promote lookbooks) in *.
  set (pool := List.filter (λ x, negb (lkbk_promote x)) lookbooks) in *.
  set (n := Z.to_nat _).
  assert (Hn : n = length pool) by (subst n; lia).
  destruct (getList_loop_sampled n 0 self pool userWeights rand prom)
    as (sampled & remaining & Hres & Hperm & Hlen).
  - lia.
  - by apply Forall_filter_not_promoted.
  - exists (prom ++ sampled). split; [exact Hres|].
    assert (remaining = []) as ->.
    { apply Permutation_length in Hperm. rewrite length_app in Hperm.
      destruct remaining; [done|simpl in Hperm; lia]. }
    rewrite app_nil_r in Hperm. by rewrite Hall, Hperm.
Qed.

Lemma getList_reorders_when_count_covers_witness :
  let a := Lookbook "a" (Some ["x"]) None false (Fin 3) in
  let b := Lookbook "b" None None true (Fin 0) in
  let c := Lookbook "c" (Some ["x"; "y"]) None false (Fin 1) in
  ∃ result,
    (getList NewPersonalize [a; b; c] ∅ (λ _, Fin (9 # 10))).1 = Some result
    ∧ result ≡ₚ [a; b; c].
Proof.
  intros a b c.
  apply (getList_reorders_when_count_covers NewPersonalize [a; b; c] ∅
           (λ _, Fin (9 # 10))).
  - repeat constructor; try (intros _; eexists; reflexivity).
    intros H. discriminate H.
  - simpl. lia.
Defined.

(** ** The cumulative walk of [getSelection] *)

(** X5.  Whatever the scores and the random value ([NaN] and infinities
    included), the index [getSelection] returns on a pool that is not empty
    is an index of that pool. *)
Theorem getSelection_valid_index (self : instance) (lookbooks : list lookbook)
    (randomChoice : num) :
  lookbooks ≠ [] →
  is_Some (lookbooks !! (getSelection self lookbooks randomChoice).1).
Proof.
  intros Hne. apply lookup_lt_is_Some_2. by apply getSelection_in_range.
Qed.

Lemma getSelection_valid_index_witness :
  let a := Lookbook "a" (Some ["x"]) None false NaN in
  let b := Lookbook "b" (Some ["y"]) None false (Fin (-1)) in
  is_Some ([a; b] !! (getSelection NewPersonalize [a; b] PInf).1).
Proof.
  intros a b. by apply (getSelection_valid_index NewPersonalize [a; b] PInf).
Defined.

Lemma div_Fin (x total : Q) :
  ¬ (total == 0)%Q → Num.div (Fin x) (Fin total) = Fin (x / total).
Proof.
  intros HS. simpl. unfold Num.zerob.
  destruct (Qeq_bool total 0) eqn:E; [|done]. by apply Qeq_bool_iff in E.
Qed.

(** The walk started at running sum [c] and index [idx] stops at the first
    item whose cumulative share reaches the random value. *)
Lemma getSelection_loop_first (total q : Q) :
  ¬ (total == 0)%Q →
  ∀ (l : list lookbook) (qs : list Q) (c : Q) (idx i : nat),
    lkbk_score <$> l = Fin <$> qs →
    (i < length qs)%nat →
    (∀ j, (j < i)%nat → (c + cumulative qs total (S j) < q)%Q) →
    (q <= c + cumulative qs total (S i))%Q →
    getSelection_loop l (Fin q) (Fin total) (Fin c) idx = (idx + i)%nat.
Proof.
  intros HS. induction l as [|x l IH]; intros qs c idx i Hqs Hi Hlt Hle.
  - destruct qs; [simpl in Hi; lia|done].
  - destruct qs as [|q0 qs]; [done|]. simpl in Hqs.
    injection Hqs as Hx Hqs. cbn [getSelection_loop].
    rewrite Hx, (div_Fin q0 total HS). cbn [Num.add Num.leb].
    destruct i as [|i].
    + assert (E : Qle_bool q (c + q0 / total) = true).
      { apply Qle_bool_iff. unfold cumulative in Hle. simpl in Hle.
        set (a := (q0 / total)%Q) in *. lra. }
      rewrite E. lia.
    + assert (E : Qle_bool q (c + q0 / total) = false).
      { destruct (Qle_bool q (c + q0 / total)) eqn:E; [|done].
        apply Qle_bool_iff in E. specialize (Hlt 0%nat ltac:(lia)).
        unfold cumulative in Hlt. simpl in Hlt.
        set (a := (q0 / total)%Q) in *. lra. }
      rewrite E.
      rewrite (IH qs (c + q0 / total)%Q (S idx) i Hqs).
      * lia.
      * simpl in Hi. lia.
      * intros j Hj. specialize (Hlt (S j) ltac:(lia)).
        unfold cumulative in *. simpl in Hlt.
        set (a := (q0 / total)%Q) in *.
        set (b := share_sum (take (S j) qs) total) in *. lra.
      * unfold cumulative in *. simpl in Hle.
        set (a := (q0 / total)%Q) in *.
        set (b := share_sum (take (S i) qs) total) in *. lra.
Qed.

(** The walk runs to its end when no cumulative share reaches the random
    value, and then answers [0]. *)
Lemma getSelection_loop_none (total q : Q) :
  ¬ (total == 0)%Q →
  ∀ (l : list lookbook) (qs : list Q) (c : Q) (idx : nat),
    lkbk_score <$> l = Fin <$> qs →
    (∀ j, (j < length qs)%nat → (c + cumulative qs total (S j) < q)%Q) →
    getSelection_loop l (Fin q) (Fin total) (Fin c) idx = 0%nat.
Proof.
  intros HS. induction l as [|x l IH]; intros qs c idx Hqs Hlt; [done|].
  destruct qs as [|q0 qs]; [done|]. simpl in Hqs.
  injection Hqs as Hx Hqs. cbn [getSelection_loop].
  rewrite Hx, (div_Fin q0 total HS). cbn [Num.add Num.leb].
  assert (E : Qle_bool q (c + q0 / total) = false).
  { destruct (Qle_bool q (c + q0 / total)) eqn:E; [|done].
    apply Qle_bool_iff in E. specialize (Hlt 0%nat ltac:(simpl; lia)).
    unfold cumulative in Hlt. simpl in Hlt.
    set (a := (q0 / total)%Q) in *. lra. }
  rewrite E. apply (IH qs). { exact Hqs. }
  intros j Hj. specialize (Hlt (S j) ltac:(simpl; lia)).
  unfold cumulative in *. simpl in Hlt.
  set (a := (q0 / total)%Q) in *.
  set (b := share_sum (take (S j) qs) total) in *. lra.
Qed.

(** X6.  With finite scores [qs] of sum [total], not zero, and a finite random value
    [q], [getSelection] returns the first index [i] at which the cumulative
    share [(qs_0 + ... + qs_i) / total] reaches [q]. *)
Theorem getSelection_first_bucket (self : instance) (lookbooks : list lookbook)
    (qs : list Q) (total q : Q) (i : nat) :
  lkbk_score <$> lookbooks = Fin <$> qs →
  scoreSum lookbooks = Fin total →
  ¬ (total == 0)%Q →
  (i < length qs)%nat →
  (∀ j, (j < i)%nat → (cumulative qs total (S j) < q)%Q) →
  (q <= cumulative qs total (S i))%Q →
  (getSelection self lookbooks (Fin q)).1 = i.
Proof.
  intros Hqs Hsum HS Hi Hlt Hle. unfold getSelection. cbn [fst].
  rewrite Hsum.
  rewrite (getSelection_loop_first total q HS lookbooks qs 0 0 i Hqs Hi); [done| |].
  - intros j Hj. specialize (Hlt j Hj). lra.
  - lra.
Qed.

(** Scores 1, 0 and 3 and the random value 0.5: the cumulative shares are
    0.25, 0.25 and 1, so the third lookbook is picked. *)
Lemma getSelection_first_bucket_witness :
  let a := Lookbook "a" (Some ["x"]) None false (Fin 1) in
  let b := Lookbook "b" (Some ["y"]) None false (Fin 0) in
  let c := Lookbook "c" (Some ["z"]) None false (Fin 3) in
  (getSelection NewPersonalize [a; b; c] (Fin (1 # 2))).1 = 2%nat.
Proof.
  intros a b c.
  apply (getSelection_first_bucket NewPersonalize [a; b; c] [1; 0; 3]%Q
           (0 + 1 + 0 + 3)%Q (1 # 2) 2).
  - reflexivity.
  - reflexivity.
  - discriminate.
  - simpl. lia.
  - intros j Hj. destruct j as [|[|j]]; [reflexivity|reflexivity|lia].
  - discriminate.
Defined.

(** X7.  A random value above every cumulative share (one that is not below 1,
    with non-negative scores) makes [getSelection] answer index 0, the
    first lookbook and not the last. *)
Theorem getSelection_overshoot_picks_first (self : instance)
    (lookbooks : list lookbook) (qs : list Q) (total q : Q) :
  lkbk_score <$> lookbooks = Fin <$> qs →
  scoreSum lookbooks = Fin total →
  ¬ (total == 0)%Q →
  (∀ j, (j < length qs)%nat → (cumulative qs total (S j) < q)%Q) →
  (getSelection self lookbooks (Fin q)).1 = 0%nat.
Proof.
  intros Hqs Hsum HS Hlt. unfold getSelection. cbn [fst]. rewrite Hsum.
  apply (getSelection_loop_none total q HS lookbooks qs 0 0 Hqs).
  intros j Hj. specialize (Hlt j Hj). lra.
Qed.

Lemma getSelection_overshoot_picks_first_witness :
  let a := Lookbook "a" (Some ["x"]) None false (Fin 1) in
  let b := Lookbook "b" (Some ["y"]) None false (Fin 3) in
  (getSelection NewPersonalize [a; b] (Fin (11 # 10))).1 = 0%nat.
Proof.
  intros a b.
  apply (getSelection_overshoot_picks_first NewPersonalize [a; b] [1; 3]%Q
           (0 + 1 + 3)%Q (11 # 10)).
  - reflexivity.
  - reflexivity.
  - discriminate.
  - intros j Hj. destruct j as [|[|j]]; [reflexivity|reflexivity|simpl in Hj; lia].
Defined.

(** ** Scores *)

Lemma priority_nonneg (self : instance) (uw : gmap string num) (k : string) :
  map_Forall (λ _ v, nonneg v) uw →
  map_Forall (λ _ d, ∃ v, weight d = Some v ∧ nonneg v) (defaultInterests self) →
  nonneg (initialValue self) →
  k ∉ Object_prototype →
  nonneg (priority self k uw).
Proof.
  intros Huw Hd Hiv Hk. unfold priority, priority_default, inherited.
  rewrite (bool_decide_eq_false_2 _ Hk).
  assert (Hdef : nonneg match defaultInterests self !! k with
                        | Some d => default NaN (weight d)
                        | None => initialValue self
                        end).
  { destruct (defaultInterests self !! k) as [d|] eqn:E; [|done].
    destruct (Hd k d E) as (v & -> & Hv). exact Hv. }
  destruct (uw !! k) as [v|] eqn:E; [|done].
  destruct (Num.truthy v); [by apply (Huw k)|done].
Qed.

Lemma score_interests_nonneg (self : instance) (uw : gmap string num) :
  map_Forall (λ _ v, nonneg v) uw →
  map_Forall (λ _ d, ∃ v, weight d = Some v ∧ nonneg v) (defaultInterests self) →
  nonneg (initialValue self) →
  nonneg (level0Multiplier self) →
  ∀ (ints : list string) (i : nat) (acc : num),
    Forall (λ k, k ∉ Object_prototype) ints →
    nonneg acc → nonneg (score_interests self uw ints i acc).
Proof.
  intros Huw Hd Hiv Hm.
  induction ints as [|k ints IH]; intros i acc Hints Hacc; [done|].
  apply Forall_cons in Hints as [Hk Hints].
  cbn [score_interests]. apply IH; [done|].
  destruct (priority_nonneg self uw k Huw Hd Hiv Hk) as (p & -> & Hp).
  destruct Hm as (m & -> & Hm), Hacc as (a & -> & Ha).
  destruct (i =? 0)%nat; simpl; eexists; (split; [reflexivity|]); nra.
Qed.

(** X8.  With user weights, default weights, [initialValue], [level0Multiplier]
    and [noInterestsValue] that are non-negative numbers, a boost that is
    absent or a number not below -1, and interests none of which names a
    member of [Object.prototype], the score [score] attaches is [Math.pow]
    of a non-negative finite base: the base is never negative, infinite or
    [NaN]. *)
Theorem score_base_nonneg (pow : num → num → num) (self : instance)
    (userWeights : gmap string num) (lkbk : lookbook) :
  map_Forall (λ _ v, nonneg v) userWeights →
  map_Forall (λ _ d, ∃ v, weight d = Some v ∧ nonneg v) (defaultInterests self) →
  nonneg (initialValue self) →
  nonneg (level0Multiplier self) →
  nonneg (noInterestsValue self) →
  (∀ b, lkbk_boost lkbk = Some b → ∃ q, b = Fin q ∧ (-1 <= q)%Q) →
  (∀ ints, lkbk_interests lkbk = Some ints →
           Forall (λ k, k ∉ Object_prototype) ints) →
  ∃ base,
    (0 <= base)%Q
    ∧ lkbk_score (score_lkbk pow self userWeights lkbk)
      = pow (Fin base) (scoreBoostExponent self).
Proof.
  intros Huw Hd Hiv Hm Hn Hb Hown. unfold score_lkbk. cbn [lkbk_score].
  assert (Hsum : nonneg match lkbk_interests lkbk with
                        | Some ints => score_interests self userWeights ints 0 (Fin 0)
                        | None => noInterestsValue self
                        end).
  { destruct (lkbk_interests lkbk) as [ints|]; [|done].
    apply score_interests_nonneg; try done; [by apply Hown|].
    exists 0%Q. split; [done|lra]. }
  destruct Hsum as (s & -> & Hs).
  destruct (lkbk_boost lkbk) as [b|] eqn:E.
  - destruct (Hb b eq_refl) as (q & -> & Hq). unfold or_num, Num.or_else.
    destruct (Num.truthy (Fin q)); simpl; eexists; (split; [|reflexivity]); nra.
  - simpl. eexists; (split; [|reflexivity]); nra.
Qed.

Lemma score_base_nonneg_witness :
  let uw : gmap string num := <["x" := Fin (1 # 2)]> ∅ in
  let a := Lookbook "a" (Some ["x"; "y"]) (Some (Fin (1 # 10))) false NaN in
  ∃ base,
    (0 <= base)%Q
    ∧ lkbk_score (score_lkbk (λ x _, x) NewPersonalize uw a)
      = (λ x _, x) (Fin base) (scoreBoostExponent NewPersonalize).
Proof.
  intros uw a.
  apply (score_base_nonneg (λ x _, x) NewPersonalize uw a).
  - intros k v. unfold uw. rewrite lookup_insert. case_decide.
    + intros [= <-]. exists (1 # 2). split; [reflexivity|discriminate].
    + by rewrite lookup_empty.
  - intros k d H. simpl in H. by rewrite lookup_empty in H.
  - exists (1 # 2). split; [reflexivity|discriminate].
  - exists 2%Q. split; [reflexivity|discriminate].
  - exists (1 # 100). split; [reflexivity|discriminate].
  - intros b [= <-]. exists (1 # 10). split; [reflexivity|discriminate].
  - intros ints [= <-].
    apply (bool_decide_unpack (Forall (λ k, k ∉ Object_prototype) ["x"; "y"])).
    vm_compute. exact I.
Defined.

Lemma add_NaN_r (a : num) : Num.add a NaN = NaN.
Proof. by destruct a. Qed.

Lemma score_interests_NaN (self : instance) (uw : gmap string num)
    (ints : list string) (i : nat) :
  score_interests self uw ints i NaN = NaN.
Proof.
  revert i. induction ints as [|k ints IH]; intros i; [done|].
  cbn [score_interests]. apply IH.
Qed.

Lemma score_interests_poisoned (self : instance) (uw : gmap string num)
    (k : string) (ints : list string) :
  k ∈ ints → priority self k uw = NaN →
  ∀ (i : nat) (acc : num), score_interests self uw ints i acc = NaN.
Proof.
  intros Hk Hp. induction ints as [|j ints IH]; intros i acc.
  - by apply elem_of_nil in Hk.
  - cbn [score_interests]. apply elem_of_cons in Hk as [<-|Hk].
    + rewrite Hp. destruct (i =? 0)%nat; simpl; rewrite add_NaN_r;
        apply score_interests_NaN.
    + by apply IH.
Qed.

(** X9.  [priority] hands back [v.weight] as soon as the default table has an
    entry for the interest.  So when an interest of a lookbook has no
    (non-zero) user weight and its entry in the default table carries no
    [weight], the sum is [NaN] and the score is [Math.pow(NaN, exponent)]:
    [initialValue] is not used. *)
Theorem score_default_without_weight (pow : num → num → num) (self : instance)
    (userWeights : gmap string num) (lkbk : lookbook) (interests : list string)
    (k : string) (d : default_interest) :
  lkbk_interests lkbk = Some interests →
  k ∈ interests →
  (∀ v, userWeights !! k = Some v → Num.truthy v = false) →
  defaultInterests self !! k = Some d →
  weight d = None →
  lkbk_score (score_lkbk pow self userWeights lkbk)
  = pow NaN (scoreBoostExponent self).
Proof.
  intros Hints Hk Huw Hd Hw. unfold score_lkbk. cbn [lkbk_score]. rewrite Hints.
  assert (Hp : priority self k userWeights = NaN).
  { unfold priority, priority_default. rewrite Hd, Hw.
    destruct (userWeights !! k) as [v|]; [by rewrite (Huw v)|].
    by destruct (inherited k). }
  by rewrite (score_interests_poisoned self userWeights k interests Hk Hp).
Qed.

Lemma score_default_without_weight_witness :
  let table : gmap string default_interest :=
    <["y" := DefaultInterest "Y" None]> ∅ in
  let self := setup NewPersonalize (JArr []) no_settings table in
  let uw : gmap string num := <["x" := Fin (1 # 2)]> ∅ in
  let a := Lookbook "a" (Some ["x"; "y"]) None false NaN in
  lkbk_score (score_lkbk (λ x _, x) self uw a)
  = (λ x _, x) NaN (scoreBoostExponent self).
Proof.
  intros table self uw a.
  apply (score_default_without_weight (λ x _, x) self uw a ["x"; "y"] "y"
           (DefaultInterest "Y" None)).
  - reflexivity.
  - apply elem_of_cons. right. apply elem_of_cons. by left.
  - intros v H. vm_compute in H. discriminate H.
  - reflexivity.
  - reflexivity.
Defined.

(** X27.  An interest that names a member of [Object.prototype] and is no key
    of the user weights reads as that member, which [priority] returns as it
    is: the sum is [NaN] and the score is [Math.pow(NaN, exponent)],
    whatever the default table and [initialValue] are. *)
Theorem score_inherited_interest (pow : num → num → num) (self : instance)
    (userWeights : gmap string num) (lkbk : lookbook) (interests : list string)
    (k : string) :
  lkbk_interests lkbk = Some interests →
  k ∈ interests →
  k ∈ Object_prototype →
  userWeights !! k = None →
  lkbk_score (score_lkbk pow self userWeights lkbk)
  = pow NaN (scoreBoostExponent self).
Proof.
  intros Hints Hk Hp Huw. unfold score_lkbk. cbn [lkbk_score]. rewrite Hints.
  assert (Hn : priority self k userWeights = NaN).
  { unfold priority, inherited. by rewrite Huw, (bool_decide_eq_true_2 _ Hp). }
  by rewrite (score_interests_poisoned self userWeights k interests Hk Hn).
Qed.

Lemma score_inherited_interest_witness :
  let a := Lookbook "a" (Some ["constructor"]) None false NaN in
  lkbk_score (score_lkbk (λ x _, x) NewPersonalize ∅ a)
  = (λ x _, x) NaN (scoreBoostExponent NewPersonalize).
Proof.
  intros a.
  apply (score_inherited_interest (λ x _, x) NewPersonalize ∅ a
           ["constructor"] "constructor").
  - reflexivity.
  - by left.
  - by left.
  - reflexivity.
Defined.

(** ** Weight updates *)

Lemma add_missing_dom (self : instance) (interests : list string) :
  ∀ uw : gmap string num,
    dom (add_missing self uw interests)
    = dom uw ∪ list_to_set (filter (λ i, i ∉ Object_prototype) interests).
Proof.
  induction interests as [|i interests IH]; intros uw.
  - unfold add_missing. cbn [foldl]. rewrite filter_nil. set_solver.
  - rewrite add_missing_step, IH. destruct (uw !! i) as [w|] eqn:E.
    + assert (Hi : i ∈ dom uw) by (apply elem_of_dom; eauto).
      assert (Hw : dom (if Num.truthy w then uw else <[i := initialValue self]> uw)
                   = dom uw).
      { destruct (Num.truthy w); [done|]. rewrite dom_insert_L. set_solver. }
      rewrite Hw. destruct (decide (i ∉ Object_prototype)) as [Hp|Hp].
      * rewrite filter_cons_True by done. cbn [list_to_set]. set_solver.
      * by rewrite filter_cons_False by done.
    + unfold inherited. destruct (decide (i ∈ Object_prototype)) as [Hp|Hp].
      * rewrite (bool_decide_eq_true_2 _ Hp).
        rewrite filter_cons_False; [done|]. by intros H.
      * rewrite (bool_decide_eq_false_2 _ Hp), dom_insert_L.
        rewrite filter_cons_True by done. cbn [list_to_set]. set_solver.
Qed.

Lemma updateWeights_dom (self : instance) (interests : list string)
    (uw : gmap string num) :
  dom (updateWeights self interests uw)
  = dom uw ∪ list_to_set (filter (λ i, i ∉ Object_prototype) interests).
Proof.
  unfold updateWeights. rewrite add_missing_dom. f_equal.
  apply set_eq. intros k. rewrite !elem_of_dom, map_lookup_imap.
  destruct (uw !! k); simpl; split; intros [? ?]; eauto; done.
Qed.

(** X10.  [updateWeights] forgets no interest: the keys of the map it returns
    are the keys it was given together with the clicked interests, those
    left out that name a member of [Object.prototype] (for which
    [userWeights[i]] is truthy without an own property). *)
Theorem updateWeights_keys (self : instance) (interests : list string)
    (userWeights : gmap string num) :
  dom (updateWeights self interests userWeights)
  = dom userWeights
    ∪ list_to_set (filter (λ i, i ∉ Object_prototype) interests).
Proof. apply updateWeights_dom. Qed.

(** X11.  The keys [click] leaves in the store are the keys that were stored (or,
    with nothing stored, the keys of the default interest table of the last
    [choose]) together with the clicked interests that do not name a member
    of [Object.prototype]. *)
Theorem click_stored_keys (uid : string) (interests : list string) (w : world) :
  ∃ m,
    localStorage (click uid interests w) = Some m
    ∧ dom m
      = match localStorage w with
        | Some v => dom v
        | None => dom (defaultInterests (this w))
        end ∪ list_to_set (filter (λ i, i ∉ Object_prototype) interests).
Proof.
  eexists. split; [reflexivity|].
  rewrite dom_fmap_L, updateWeights_dom. f_equal.
  unfold getWeights. destruct (localStorage w); apply dom_fmap_L.
Qed.

(** A click on [constructor] alone, with nothing stored and an empty default
    table, stores the empty map. *)
Example click_constructor_stores_nothing :
  localStorage (click "u" ["constructor"] (World NewPersonalize None None))
  = Some ∅.
Proof. vm_compute. reflexivity. Qed.

Lemma filtered_default_hit (interests : list string) (k : string) (q : Q) :
  k ∈ interests →
  filtered NewPersonalize interests k (Fin q)
  = Num.min (Fin 1)
      (Num.max (Fin (1 # 10)) (Fin ((95 # 100) * q + (1 + - (95 # 100)) * 2))).
Proof.
  intros Hk. unfold filtered. by rewrite bool_decide_eq_true_2.
Qed.

Lemma filtered_default_miss (interests : list string) (k : string) (q : Q) :
  k ∉ interests →
  filtered NewPersonalize interests k (Fin q)
  = Num.min (Fin 1)
      (Num.max (Fin (1 # 10))
         (Fin ((95 # 100) * q + (1 + - (95 # 100)) * (1 # 10000)))).
Proof.
  intros Hk. unfold filtered. by rewrite bool_decide_eq_false_2.
Qed.

(** X12.  Under the default configuration a weight within [[0.1, 1]] moves in one
    direction only: [updateWeights] does not lower it when its interest is
    clicked and does not raise it when it is not; 1 stays 1 on a hit and
    the floor stays the floor on a miss. *)
Theorem updateWeights_default_monotone (interests : list string)
    (userWeights : gmap string num) (k : string) (q : Q) :
  userWeights !! k = Some (Fin q) →
  (1 # 10 <= q)%Q → (q <= 1)%Q →
  ∃ q',
    updateWeights NewPersonalize interests userWeights !! k = Some (Fin q')
    ∧ (k ∈ interests → (q <= q' ∧ q' <= 1)%Q)
    ∧ (k ∉ interests → (1 # 10 <= q' ∧ q' <= q)%Q).
Proof.
  intros Hk Hlo Hhi.
  rewrite (updateWeights_default_lookup interests userWeights k (Fin q) Hk)
    by done.
  destruct (decide (k ∈ interests)) as [Hin|Hout].
  - rewrite filtered_default_hit by done.
    unfold Num.max, Num.min, Num.leb. qcases; qprop;
      eexists; (split; [reflexivity|]); split; intros; try done; lra.
  - rewrite filtered_default_miss by done.
    unfold Num.max, Num.min, Num.leb. qcases; qprop;
      eexists; (split; [reflexivity|]); split; intros; try done; lra.
Qed.

Lemma updateWeights_default_monotone_witness :
  let uw : gmap string num := <["a" := Fin (1 # 2)]> ∅ in
  ∃ q',
    updateWeights NewPersonalize ["a"] uw !! "a" = Some (Fin q')
    ∧ ("a" ∈ ["a"] → (1 # 2 <= q' ∧ q' <= 1)%Q)
    ∧ ("a" ∉ ["a"] → (1 # 10 <= q' ∧ q' <= 1 # 2)%Q).
Proof.
  intros uw.
  apply (updateWeights_default_monotone ["a"] uw "a" (1 # 2));
    [reflexivity|discriminate|discriminate].
Defined.

(** ** Repeated updates *)

Lemma between_not_NaN (lo a hi : num) : Num.between lo a hi → a ≠ NaN.
Proof. intros [_ H] ->. by destruct hi. Qed.

Lemma iter_updateWeights_lookup (interests : list string) (k : string) (n : nat) :
  ∀ (uw : gmap string num) (x : num),
    uw !! k = Some x → x ≠ NaN →
    Nat.iter n (updateWeights NewPersonalize interests) uw !! k
    = Some (Nat.iter n (filtered NewPersonalize interests k) x)
    ∧ Nat.iter n (filtered NewPersonalize interests k) x ≠ NaN.
Proof.
  induction n as [|n IH]; intros uw x Hk Hx; [done|].
  destruct (IH uw x Hk Hx) as [Hn Hnn]. rewrite !Nat.iter_succ. split.
  - by apply updateWeights_default_lookup.
  - eapply between_not_NaN.
    by apply (filtered_between NewPersonalize interests k _ tuned_NewPersonalize).
Qed.

Lemma decayed_nonneg (g : Q) (n : nat) : (0 <= g)%Q → (0 <= decayed g n)%Q.
Proof. intros Hg. induction n as [|n IH]; simpl; lra. Qed.

Lemma decayed_antitone (g : Q) (m n : nat) :
  (0 <= g)%Q → (m ≤ n)%nat → (decayed g n <= decayed g m)%Q.
Proof.
  intros Hg. induction 1 as [|n _ IH]; [lra|].
  pose proof (decayed_nonneg g n Hg). simpl. lra.
Qed.

Lemma filtered_hit_progress (interests : list string) (k : string) (c : Q)
    (x : num) :
  k ∈ interests → hit_progress c x →
  filtered NewPersonalize interests k x = Fin 1
  ∨ ∃ s, filtered NewPersonalize interests k x = Fin s
         ∧ (1 # 10 <= s)%Q ∧ (2 - (95 # 100) * c <= s)%Q ∧ (s < 1)%Q.
Proof.
  intros Hk [->|(q & -> & Hq1 & Hq2)]; rewrite filtered_default_hit by done.
  - left. reflexivity.
  - unfold Num.max, Num.min, Num.leb. qcases; qprop; try lra.
    + by left.
    + right. eexists. split; [reflexivity|]. lra.
Qed.

Lemma iter_hit_progress (interests : list string) (k : string) (q : Q) :
  k ∈ interests → (1 # 10 <= q)%Q →
  ∀ n, hit_progress (decayed (19 # 10) n)
         (Nat.iter n (filtered NewPersonalize interests k) (Fin q)).
Proof.
  intros Hk Hq. induction n as [|n IH].
  - right. exists q. simpl. split; [done|]. lra.
  - rewrite Nat.iter_succ. cbn [decayed].
    destruct (filtered_hit_progress interests k _ _ Hk IH)
      as [->|(s & -> & H1 & H2 & _)]; [by left|].
    right. exists s. done.
Qed.

(** X13.  Under the default configuration, 13 updates in a row that click an
    interest bring its weight to exactly 1, from any weight not below the
    floor 0.1; later clicks keep it there. *)
Theorem updateWeights_default_hits_reach_one (interests : list string)
    (userWeights : gmap string num) (k : string) (q : Q) (n : nat) :
  k ∈ interests →
  userWeights !! k = Some (Fin q) →
  (1 # 10 <= q)%Q →
  (13 ≤ n)%nat →
  Nat.iter n (updateWeights NewPersonalize interests) userWeights !! k
  = Some (Fin 1).
Proof.
  intros Hk Huw Hq Hn.
  destruct (iter_updateWeights_lookup interests k n userWeights (Fin q) Huw)
    as [-> _]; [done|]. f_equal.
  destruct n as [|m]; [lia|]. rewrite Nat.iter_succ.
  pose proof (iter_hit_progress interests k q Hk Hq m) as Hm.
  destruct (filtered_hit_progress interests k _ _ Hk Hm)
    as [->|(s & _ & _ & Hs & Hlt)]; [done|].
  exfalso.
  assert (H12 : (decayed (19 # 10) m <= decayed (19 # 10) 12)%Q).
  { apply decayed_antitone; [lra|lia]. }
  assert (H13 : ((95 # 100) * decayed (19 # 10) 12 < 1)%Q) by reflexivity.
  lra.
Qed.

Lemma updateWeights_default_hits_reach_one_witness :
  let uw : gmap string num := <["a" := Fin (1 # 10)]> (<["b" := Fin 1]> ∅) in
  Nat.iter 13 (updateWeights NewPersonalize ["a"]) uw !! "a" = Some (Fin 1).
Proof.
  intros uw.
  apply (updateWeights_default_hits_reach_one ["a"] uw "a" (1 # 10) 13).
  - apply elem_of_cons. by left.
  - reflexivity.
  - discriminate.
  - lia.
Defined.

(** Twelve clicks are not enough from the floor. *)
Example updateWeights_default_twelve_hits :
  let uw : gmap string num := <["a" := Fin (1 # 10)]> ∅ in
  ∃ q, Nat.iter 12 (updateWeights NewPersonalize ["a"]) uw !! "a" = Some (Fin q)
       ∧ (q < 1)%Q.
Proof. eexists. split; [vm_compute; reflexivity|reflexivity]. Qed.

Lemma filtered_miss_progress (interests : list string) (k : string) (c : Q)
    (x : num) :
  k ∉ interests → miss_progress c x →
  miss_progress ((95 # 100) * c) (filtered NewPersonalize interests k x).
Proof.
  intros Hk (q & -> & Hq1 & Hq2). rewrite filtered_default_miss by done.
  unfold Num.max, Num.min, Num.leb. qcases; qprop;
    eexists; (split; [reflexivity|]); destruct Hq2; split; try lra.
  all: try (left; lra). all: try (right; lra).
Qed.

Lemma iter_miss_progress (interests : list string) (k : string) (q : Q) :
  k ∉ interests → (1 # 10 <= q)%Q → (q <= 1)%Q →
  ∀ n, miss_progress (decayed (9999 # 10000) n)
         (Nat.iter n (filtered NewPersonalize interests k) (Fin q)).
Proof.
  intros Hk Hq1 Hq2. induction n as [|n IH].
  - exists q. simpl. split; [done|]. split; [done|]. right. lra.
  - rewrite Nat.iter_succ. cbn [decayed]. by apply filtered_miss_progress.
Qed.

(** X14.  Under the default configuration, 45 updates in a row that do not click
    an interest bring its weight down to the floor 0.1, from any weight
    within [[0.1, 1]]; it stays there while it is not clicked. *)
Theorem updateWeights_default_misses_reach_floor (interests : list string)
    (userWeights : gmap string num) (k : string) (q : Q) (n : nat) :
  k ∉ interests →
  userWeights !! k = Some (Fin q) →
  (1 # 10 <= q)%Q → (q <= 1)%Q →
  (45 ≤ n)%nat →
  ∃ q',
    Nat.iter n (updateWeights NewPersonalize interests) userWeights !! k
    = Some (Fin q')
    ∧ (q' == 1 # 10)%Q.
Proof.
  intros Hk Huw Hq1 Hq2 Hn.
  destruct (iter_updateWeights_lookup interests k n userWeights (Fin q) Huw)
    as [-> _]; [done|].
  destruct (iter_miss_progress interests k q Hk Hq1 Hq2 n)
    as (q' & -> & Hlo & [Heq|Hle]); exists q'; (split; [done|]); [done|].
  assert (H45 : (decayed (9999 # 10000) n <= decayed (9999 # 10000) 45)%Q).
  { apply decayed_antitone; [lra|lia]. }
  assert (Hc : ((1 # 10000) + decayed (9999 # 10000) 45 < 1 # 10)%Q)
    by reflexivity.
  lra.
Qed.

Lemma updateWeights_default_misses_reach_floor_witness :
  let uw : gmap string num := <["a" := Fin 1]> ∅ in
  ∃ q',
    Nat.iter 45 (updateWeights NewPersonalize ["b"]) uw !! "a" = Some (Fin q')
    ∧ (q' == 1 # 10)%Q.
Proof.
  intros uw.
  apply (updateWeights_default_misses_reach_floor ["b"] uw "a" 1 45).
  - intros H. apply elem_of_cons in H as [H|H]; [discriminate H|].
    by apply elem_of_nil in H.
  - reflexivity.
  - discriminate.
  - discriminate.
  - lia.
Defined.

(** ** Storage *)

(** X16.  Saving and loading are inverse to each other on finite weights: what
    [getWeights] loads after [setWeights] is the map that was saved, and
    saving what was loaded leaves the store as it was. *)
Theorem setWeights_getWeights_round_trip (weights : gmap string num) (w : world) :
  map_Forall (λ _ a, finite a) weights →
  getWeights (setWeights weights w) = weights
  ∧ (∀ v, localStorage w = Some v →
          localStorage (setWeights (getWeights w) w) = Some v).
Proof.
  intros Hfin. split.
  - unfold getWeights, setWeights. cbn [localStorage].
    apply map_eq. intros k. rewrite !lookup_fmap.
    destruct (weights !! k) as [a|] eqn:E; [|done].
    destruct (Hfin k a E) as [q ->]. reflexivity.
  - intros v Hv. unfold getWeights, setWeights. cbn [localStorage].
    rewrite Hv. f_equal. apply map_eq. intros k. rewrite !lookup_fmap.
    by destruct (v !! k).
Qed.

Lemma setWeights_getWeights_round_trip_witness :
  let weights : gmap string num := <["a" := Fin (1 # 2)]> (<["b" := Fin 1]> ∅) in
  let w := World NewPersonalize None None in
  getWeights (setWeights weights w) = weights
  ∧ (∀ v, localStorage w = Some v →
          localStorage (setWeights (getWeights w) w) = Some v).
Proof.
  intros weights w.
  apply (setWeights_getWeights_round_trip weights w).
  intros k a. unfold weights.
  rewrite lookup_insert. case_decide; [intros [= <-]; by eexists|].
  rewrite lookup_insert. case_decide; [intros [= <-]; by eexists|].
  by rewrite lookup_empty.
Defined.

(** ** Rounding for the log *)

(** X17.  [limit] moves a finite value by at most half a thousandth, and leaves
    [NaN] and the infinities as they are. *)
Theorem limit_within_half_thousandth (q : Q) :
  (∃ q', limit (Fin q) = Fin q'
         ∧ (q - (1 # 2000) < q')%Q ∧ (q' <= q + (1 # 2000))%Q)
  ∧ limit NaN = NaN ∧ limit PInf = PInf ∧ limit NInf = NInf.
Proof.
  split; [|by repeat split].
  unfold limit, Num.round, Num.of_Z, Num.mul.
  rewrite div_Fin by discriminate.
  eexists. split; [reflexivity|].
  set (x := (q * 1000 + (1 # 2))%Q).
  pose proof (Qfloor_le x) as Hle.
  pose proof (Qlt_floor x) as Hlt.
  rewrite inject_Z_plus in Hlt.
  change (inject_Z 1) with 1%Q in Hlt.
  set (z := inject_Z (Qfloor x)) in *.
  assert (Hz : (z / 1000 == z * (1 # 1000))%Q) by (field; discriminate).
  rewrite Hz. subst x. split; lra.
Qed.

(** ** [chooseText] *)

(** X18.  [chooseText] fails on [null] and on nothing else. *)
Theorem chooseText_fails_only_on_null (translations : jsval)
    (languageCode : string) :
  chooseText translations languageCode = None ↔ translations = JNull.
Proof.
  split; [|by intros ->].
  unfold chooseText.
  destruct translations as [| | | | |l|fields]; try done;
    by destruct (first_element _).
Qed.

Lemma assoc_elem_of (k : string) (fields : list (string * jsval)) :
  Js.assoc k fields ≠ JUndefined → (k, Js.assoc k fields) ∈ fields.
Proof.
  induction fields as [|[k' v] fields IH]; simpl; [done|].
  destruct (String.eqb k k') eqn:E.
  - apply String.eqb_eq in E as ->. intros _. by left.
  - intros H. right. by apply IH.
Qed.

Lemma has_own_false_assoc (k : string) (fields : list (string * jsval)) :
  has_own k fields = false → Js.assoc k fields = JUndefined.
Proof.
  induction fields as [|[k' v] fields IH]; simpl; [done|].
  destruct (String.eqb k k'); simpl; [done|exact IH].
Qed.

(** X19.  On an object with at least one entry, [chooseText] returns the value of
    one of the entries, the one under [languageCode] when that one is
    neither [null] nor [undefined] and the first entry otherwise, provided
    [languageCode] is an own key of the object or is not the name of a
    member of [Object.prototype].  For such a name that is no own key, it
    returns the inherited member, which is no entry. *)
Theorem chooseText_returns_an_entry (fields : list (string * jsval))
    (languageCode : string) :
  fields ≠ [] →
  (has_own languageCode fields = true ∨ languageCode ∉ Object_prototype →
   ∃ k v,
     (k, v) ∈ fields
     ∧ chooseText (JObj fields) languageCode = Some (Value v)
     ∧ (nullish (Js.assoc languageCode fields) = false → k = languageCode)
     ∧ (nullish (Js.assoc languageCode fields) = true
        → fields !! 0%nat = Some (k, v)))
  ∧ (has_own languageCode fields = false → languageCode ∈ Object_prototype →
     chooseText (JObj fields) languageCode = Some (Inherited languageCode)).
Proof.
  intros Hne. destruct fields as [|[k0 v0] fields]; [done|].
  unfold chooseText. cbn [first_element element].
  set (all := (k0, v0) :: fields).
  split.
  - intros Hown.
    assert (Helt : (if has_own languageCode all
                    then Value (Js.assoc languageCode all)
                    else if inherited languageCode then Inherited languageCode
                         else Value JUndefined)
                   = Value (Js.assoc languageCode all)).
    { destruct (has_own languageCode all) eqn:E; [done|].
      destruct Hown as [?|Hp]; [done|].
      unfold inherited. rewrite (bool_decide_eq_false_2 _ Hp).
      by rewrite has_own_false_assoc. }
    rewrite Helt. cbn [nullish_property].
    destruct (nullish (Js.assoc languageCode all)) eqn:E.
    + exists k0, v0. repeat split; try done. by left.
    + exists languageCode, (Js.assoc languageCode all).
      repeat split; try done.
      apply assoc_elem_of. intros H. by rewrite H in E.
  - intros Hown Hp. rewrite Hown. unfold inherited.
    by rewrite (bool_decide_eq_true_2 _ Hp).
Qed.

Lemma chooseText_returns_an_entry_witness :
  let fields := [("en", JStr "Women"); ("es", JNull); ("fr", JStr "Femmes")] in
  (has_own "es" fields = true ∨ "es" ∉ Object_prototype →
   ∃ k v,
     (k, v) ∈ fields
     ∧ chooseText (JObj fields) "es" = Some (Value v)
     ∧ (nullish (Js.assoc "es" fields) = false → k = "es")
     ∧ (nullish (Js.assoc "es" fields) = true → fields !! 0%nat = Some (k, v)))
  ∧ (has_own "es" fields = false → "es" ∈ Object_prototype →
     chooseText (JObj fields) "es" = Some (Inherited "es")).
Proof.
  intros fields.
  apply (chooseText_returns_an_entry fields "es"). discriminate.
Defined.

(** The language code [constructor] on an object without such a key. *)
Example chooseText_constructor :
  chooseText (JObj [("en", JStr "A")]) "constructor"
  = Some (Inherited "constructor").
Proof. reflexivity. Qed.

(** ** [findImage] *)

Lemma leb_not_NaN_l (a b : num) : Num.leb a b = true → a ≠ NaN.
Proof. by intros H ->. Qed.

Lemma leb_not_NaN_r (a b : num) : Num.leb a b = true → b ≠ NaN.
Proof. intros H ->. by destruct a. Qed.

Lemma leb_trans (a b c : num) :
  Num.leb a b = true → Num.leb b c = true → Num.leb a c = true.
Proof.
  destruct a as [| | |x], b as [| | |y], c as [| | |z]; simpl; try done.
  intros. qprop. lra.
Qed.

Lemma ltb_leb (a b : num) : Num.ltb a b = true → Num.leb a b = true.
Proof. unfold Num.ltb. by intros [? _]%andb_true_iff. Qed.

Lemma not_ltb_leb (a b : num) :
  a ≠ NaN → b ≠ NaN → Num.ltb a b = false → Num.leb b a = true.
Proof.
  unfold Num.ltb.
  destruct a as [| | |x], b as [| | |y]; simpl; try done.
  intros _ _. qcases; qprop; try done. lra.
Qed.

Lemma square_sum_not_NaN (a b : num) :
  a ≠ NaN → b ≠ NaN → Num.add (Num.mul a a) (Num.mul b b) ≠ NaN.
Proof. by destruct a, b. Qed.

Lemma covers_size2_not_NaN (el : picture) (w h : num) :
  covers el w h = true → size2 el ≠ NaN.
Proof.
  unfold covers, Num.geb. intros [H1 H2]%andb_true_iff.
  apply square_sum_not_NaN; by eapply leb_not_NaN_r.
Qed.

(** The loop of [findImage] keeps the candidate found so far unless a
    covering picture is strictly smaller. *)
Lemma findImage_loop_spec (w h : num) (images : list picture) :
  ∀ (found : option picture) (smallest2 : num),
    smallest2 ≠ NaN →
    (∀ r, found = Some r → smallest2 = size2 r) →
    match findImage_loop images w h found smallest2 with
    | Some r =>
        (found = Some r ∨ (r ∈ images ∧ covers r w h = true))
        ∧ Num.leb (size2 r) smallest2 = true
        ∧ ∀ el, el ∈ images → covers el w h = true →
                Num.leb (size2 r) (size2 el) = true
    | None =>
        found = None
        ∧ ∀ el, el ∈ images → covers el w h = true →
                Num.ltb (size2 el) smallest2 = false
    end.
Proof.
  induction images as [|el images IH]; intros found smallest2 Hs Hfound.
  - destruct found as [r|]; cbn [findImage_loop].
    + rewrite (Hfound r eq_refl) in *.
      split; [by left|]. split.
      * destruct (size2 r) as [| | |x]; try done. simpl. qprop. lra.
      * intros el Hel. by apply elem_of_nil in Hel.
    + split; [done|]. intros el Hel. by apply elem_of_nil in Hel.
  - cbn [findImage_loop]. fold (covers el w h). fold (size2 el).
    destruct (covers el w h) eqn:Hc; cbn [andb].
    + pose proof (covers_size2_not_NaN el w h Hc) as Hel.
      destruct (Num.ltb (size2 el) smallest2) eqn:Hlt.
      * specialize (IH (Some el) (size2 el) Hel).
        destruct (findImage_loop images w h (Some el) (size2 el)) as [r|].
        -- destruct IH as (Hfrom & Hle & Hmin); [by intros ? [= <-]|].
           assert (Hin : r ∈ el :: images ∧ covers r w h = true).
           { destruct Hfrom as [[= <-]|[? ?]]; split; try done;
               [by left|by right]. }
           split; [by right|]. split.
           ++ eapply leb_trans; [exact Hle|]. by apply ltb_leb.
           ++ intros el' [->|Hel']%elem_of_cons Hc'; [exact Hle|by apply Hmin].
        -- destruct IH as [? _]; [by intros ? [= <-]|done].
      * specialize (IH found smallest2 Hs Hfound).
        destruct (findImage_loop images w h found smallest2) as [r|].
        -- destruct IH as (Hfrom & Hle & Hmin). split; [|split; [exact Hle|]].
           { destruct Hfrom as [?|[? ?]]; [by left|right].
             split; [by right|done]. }
           intros el' [->|Hel']%elem_of_cons Hc'; [|by apply Hmin].
           eapply leb_trans; [exact Hle|]. by apply not_ltb_leb.
        -- destruct IH as [Hf Hall]. split; [done|].
           intros el' [->|Hel']%elem_of_cons Hc'; [done|by apply Hall].
    + specialize (IH found smallest2 Hs Hfound).
      destruct (findImage_loop images w h found smallest2) as [r|].
      * destruct IH as (Hfrom & Hle & Hmin). split; [|split; [exact Hle|]].
        { destruct Hfrom as [?|[? ?]]; [by left|right].
          split; [by right|done]. }
        intros el' [->|Hel']%elem_of_cons Hc'; [congruence|by apply Hmin].
      * destruct IH as [Hf Hall]. split; [done|].
        intros el' [->|Hel']%elem_of_cons Hc'; [congruence|by apply Hall].
Qed.

(** X20.  When some picture is at least [w] wide and [h] high (and its squared
    diagonal is below [Number.MAX_VALUE]), [findImage] returns a picture of
    the list that covers [w] by [h] and whose squared diagonal is the
    smallest among the covering ones. *)
Theorem findImage_smallest_cover (images : list picture) (w h : num)
    (el : picture) :
  el ∈ images → covers el w h = true →
  Num.ltb (size2 el) Num.MAX_VALUE = true →
  ∃ r,
    findImage images w h = Some r
    ∧ r ∈ images
    ∧ covers r w h = true
    ∧ ∀ el', el' ∈ images → covers el' w h = true →
             Num.leb (size2 r) (size2 el') = true.
Proof.
  intros Hel Hc Hlt. unfold findImage.
  pose proof (findImage_loop_spec w h images None Num.MAX_VALUE
                ltac:(done) ltac:(done)) as H.
  destruct (findImage_loop images w h None Num.MAX_VALUE) as [r|].
  - destruct H as [[?|[Hin Hcr]] [_ Hmin]]; [done|]. by exists r.
  - destruct H as [_ Hall]. rewrite (Hall el Hel Hc) in Hlt. done.
Qed.

Lemma findImage_smallest_cover_witness :
  let big := Picture "big" (Fin 1350) (Fin 600) in
  let mid := Picture "mid" (Fin 675) (Fin 300) in
  let small := Picture "small" (Fin 100) (Fin 50) in
  ∃ r,
    findImage [big; mid; small] (Fin 400) (Fin 200) = Some r
    ∧ r ∈ [big; mid; small]
    ∧ covers r (Fin 400) (Fin 200) = true
    ∧ ∀ el', el' ∈ [big; mid; small] → covers el' (Fin 400) (Fin 200) = true →
             Num.leb (size2 r) (size2 el') = true.
Proof.
  intros big mid small.
  apply (findImage_smallest_cover [big; mid; small] (Fin 400) (Fin 200) big).
  - by left.
  - reflexivity.
  - vm_compute. reflexivity.
Defined.

(** X21.  When no picture is at least [w] wide and [h] high, [findImage] returns
    the first picture of the list, and [undefined] for an empty list. *)
Theorem findImage_falls_back_to_first (images : list picture) (w h : num) :
  (∀ el, el ∈ images → covers el w h = false) →
  findImage images w h = images !! 0%nat.
Proof.
  intros Hnone. unfold findImage.
  pose proof (findImage_loop_spec w h images None Num.MAX_VALUE
                ltac:(done) ltac:(done)) as H.
  destruct (findImage_loop images w h None Num.MAX_VALUE) as [r|]; [|done].
  destruct H as [[?|[Hin Hcr]] _]; [done|].
  rewrite (Hnone r Hin) in Hcr. done.
Qed.

Lemma findImage_falls_back_to_first_witness :
  let big := Picture "big" (Fin 1350) (Fin 600) in
  let mid := Picture "mid" (Fin 675) (Fin 300) in
  findImage [big; mid] (Fin 2000) (Fin 100) = [big; mid] !! 0%nat.
Proof.
  intros big mid.
  apply (findImage_falls_back_to_first [big; mid] (Fin 2000) (Fin 100)).
  intros el Hel.
  apply elem_of_cons in Hel as [->|Hel]; [reflexivity|].
  apply elem_of_cons in Hel as [->|Hel]; [reflexivity|].
  by apply elem_of_nil in Hel.
Defined.

(** ** What [choose] returns, logs and keeps *)

Lemma choose_length_witness :
  let good1 := JObj [("uid", JStr "a"); ("interests", JArr [JStr "x"])] in
  let good2 :=
    JObj [("uid", JStr "b"); ("interests", JArr [JStr "y"]);
          ("promote", JBool true)] in
  let posts := JArr [good1; JNull; good2] in
  let w := World NewPersonalize None None in
  ∃ result,
    (choose (λ x _, x) posts no_settings ∅ (λ _, Fin (1 # 2)) w).1 = Some result
    ∧ (length result
       ≤ length (Js.slice0 (cleanup posts)
                   (maxConsidered (setup (this w) posts no_settings ∅))))%nat.
Proof.
  intros good1 good2 posts w.
  apply (choose_length (λ x _, x) posts no_settings ∅ (λ _, Fin (1 # 2)) w).
  eexists. reflexivity.
Defined.

Lemma getList_loop_elements (n : nat) :
  ∀ (i : nat) (self : instance) (pool : list lookbook) (uw : gmap string num)
    (rand : nat → num) (result result' : list lookbook),
    (getList_loop n i self pool uw rand result).1 = Some result' →
    ∀ x, x ∈ result' → x ∈ result ∨ x ∈ pool.
Proof.
  induction n as [|n IH]; intros i self pool uw rand result result' H x Hx.
  - simpl in H. injection H as <-. by left.
  - cbn [getList_loop] in H.
    destruct (getSelection self pool (rand i)) as [selected self'].
    destruct (updateChoices self' pool uw selected) as [u|] eqn:Hu; [|done].
    destruct (updateChoices_userWeights _ _ _ _ _ Hu) as (y & ints & Hy & Hints & _).
    destruct (updateChoices_Some self' pool uw selected y ints Hy Hints)
      as (u' & Hu' & Hl & Hls).
    rewrite Hu in Hu'. injection Hu' as <-.
    destruct (IH _ _ _ _ _ _ _ H x Hx) as [Hin|Hin].
    + apply elem_of_app in Hin as [Hin|Hin]; [by left|right].
      apply list_elem_of_singleton in Hin as ->. rewrite Hl.
      apply list_elem_of_lookup. eauto.
    + right. rewrite Hls in Hin. by apply list_elem_of_delete_inv in Hin.
Qed.

Lemma getList_elements (self : instance) (lookbooks : list lookbook)
    (uw : gmap string num) (rand : nat → num) (result : list lookbook) :
  (getList self lookbooks uw rand).1 = Some result →
  ∀ x, x ∈ result → x ∈ lookbooks.
Proof.
  unfold getList. rewrite getList_split_filter. simpl. intros H x Hx.
  destruct (getList_loop_elements _ _ _ _ _ _ _ _ H x Hx) as [Hin|Hin];
    apply list_elem_of_In, filter_In in Hin as [Hin _];
    by apply list_elem_of_In.
Qed.

(** X23.  Every lookbook [choose] returns is the scored reading of a well-formed
    entry of the catalog, found among the first [maxConsidered] entries
    that passed [cleanup]. *)
Theorem choose_returns_considered (pow : num → num → num) (posts : jsval)
    (settings : Settings.t) (table : gmap string default_interest)
    (rand : nat → num) (w : world) (result : list lookbook) (x : lookbook) :
  (choose pow posts settings table rand w).1 = Some result →
  x ∈ result →
  let self := setup (this w) posts settings table in
  ∃ v y,
    v ∈ Js.slice0 (cleanup posts) (maxConsidered self)
    ∧ well_formed_entry v = true
    ∧ as_lookbook v = Some y
    ∧ lkbk_uid x = lkbk_uid y
    ∧ lkbk_interests x = lkbk_interests y.
Proof.
  intros H Hx self. unfold choose, performChoose in H.
  cbn [this localStorage dataLayer] in H. fold self in H.
  set (data := Js.slice0 (cleanup posts) (maxConsidered self)) in *.
  destruct (mapM as_lookbook data) as [typed|] eqn:Htyped; [|done].
  set (uw := getWeights _) in H.
  destruct (getList (set_scored self (score pow self typed uw))
              (score pow self typed uw) uw rand) as [[list|] self'] eqn:Hg;
    [|done].
  simpl in H. injection H as ->.
  assert (Hin : x ∈ score pow self typed uw).
  { eapply getList_elements; [|exact Hx]. by rewrite Hg. }
  apply list_elem_of_fmap in Hin as (y & -> & Hy).
  apply mapM_Some in Htyped.
  apply list_elem_of_lookup in Hy as [i Hi].
  destruct (Forall2_lookup_r _ _ _ _ _ Htyped Hi) as (v & Hv & Hvy).
  exists v, y. split; [apply list_elem_of_lookup; eauto|].
  split; [|done].
  assert (Hvc : v ∈ cleanup posts).
  { subst data. unfold Js.slice0 in Hv.
    destruct (_ <? _); apply lookup_take_Some in Hv as [Hv _];
      apply list_elem_of_lookup; eauto. }
  destruct posts as [| | | | |l|]; try by apply elem_of_nil in Hvc.
  rewrite cleanup_filter in Hvc.
  by apply list_elem_of_In, filter_In in Hvc as [_ ?].
Qed.

Lemma choose_returns_considered_witness :
  let good1 := JObj [("uid", JStr "a"); ("interests", JArr [JStr "x"])] in
  let good2 :=
    JObj [("uid", JStr "b"); ("interests", JArr [JStr "y"]);
          ("promote", JBool true)] in
  let posts := JArr [good1; JNull; good2] in
  let w := World NewPersonalize None None in
  let x := Lookbook "b" (Some ["y"]) None true (Fin (2 # 2)) in
  let self := setup (this w) posts no_settings ∅ in
  ∃ v y,
    v ∈ Js.slice0 (cleanup posts) (maxConsidered self)
    ∧ well_formed_entry v = true
    ∧ as_lookbook v = Some y
    ∧ lkbk_uid x = lkbk_uid y
    ∧ lkbk_interests x = lkbk_interests y.
Proof.
  intros good1 good2 posts w x.
  apply (choose_returns_considered (λ x _, x) posts no_settings ∅
           (λ _, Fin (1 # 2)) w
           [x; Lookbook "a" (Some ["x"]) None false (Fin (2 # 2))] x).
  - vm_compute. reflexivity.
  - by left.
Defined.

Lemma getList_loop_kept (n : nat) :
  ∀ (i : nat) (self : instance) (pool : list lookbook) (uw : gmap string num)
    (rand : nat → num) (result : list lookbook),
    tunables (getList_loop n i self pool uw rand result).2 = tunables self
    ∧ defaultInterests (getList_loop n i self pool uw rand result).2
      = defaultInterests self.
Proof.
  induction n as [|n IH]; intros i self pool uw rand result; [done|].
  cbn [getList_loop]. unfold getSelection.
  destruct (updateChoices _ pool uw _) as [u|]; [|done].
  destruct (IH (S i)
              (set_lastAverage self
                 (Num.div (scoreSum pool) (Num.of_nat (length pool))))
              (Update.lookbooks u) (Update.userWeights u) rand
              (result ++ [Update.lookbook u])) as [-> ->].
  done.
Qed.

Lemma performChoose_kept (pow : num → num → num) (posts : jsval)
    (rand : nat → num) (w : world) :
  tunables (this (performChoose pow posts rand w).2) = tunables (this w)
  ∧ defaultInterests (this (performChoose pow posts rand w).2)
    = defaultInterests (this w).
Proof.
  unfold performChoose.
  destruct (mapM as_lookbook _) as [data|]; [|done].
  set (uw := getWeights w). set (scored := score pow (this w) data uw).
  unfold getList. destruct (getList_split scored [] []) as [result temp].
  set (n := Z.to_nat _).
  pose proof (getList_loop_kept n 0 (set_scored (this w) scored) temp uw rand
                result) as [Ht Hd].
  destruct (getList_loop n 0 (set_scored (this w) scored) temp uw rand result)
    as [[list|] self']; unfold tunables in *; simpl in *; by split.
Qed.

(** X24.  What [choose] resolved stays in the instance: after the call the
    tunables are the resolved ones and the default interests those of the
    call, and a later call without settings works with the same tunables;
    the initial values of [NewPersonalize] do not come back. *)
Theorem choose_settings_stick (pow : num → num → num) (posts posts2 : jsval)
    (settings : Settings.t) (table table2 : gmap string default_interest)
    (rand rand2 : nat → num) (w : world) :
  let w1 := (choose pow posts settings table rand w).2 in
  tunables (this w1) = tunables (setup (this w) posts settings table)
  ∧ defaultInterests (this w1) = table
  ∧ tunables (this (choose pow posts2 no_settings table2 rand2 w1).2)
    = tunables (setup (this w) posts settings table).
Proof.
  intros w1.
  assert (H1 : tunables (this w1) = tunables (setup (this w) posts settings table)
               ∧ defaultInterests (this w1) = table).
  { subst w1. unfold choose.
    destruct (performChoose_kept pow posts rand
                {| this := setup (this w) posts settings table;
                   localStorage := localStorage w;
                   dataLayer := dataLayer w |}) as [-> ->].
    done. }
  destruct H1 as [Ht Hd]. split; [exact Ht|]. split; [exact Hd|].
  unfold choose.
  destruct (performChoose_kept pow posts2 rand2
              {| this := setup (this w1) posts2 no_settings table2;
                 localStorage := localStorage w1;
                 dataLayer := dataLayer w1 |}) as [-> _].
  cbn [this]. rewrite <- Ht. unfold tunables, setup, no_settings. cbn.
  reflexivity.
Qed.

(** X25.  A call that returns a list records one [selectedList] event, in
    [lastEvent] and at the end of [dataLayer] when there is one: its
    selected identifiers are those of the list returned, in order, and its
    weights are the weights loaded for the call, rounded by [limit], not
    the deprioritized working copy. *)
Theorem choose_logs_selection (pow : num → num → num) (posts : jsval)
    (settings : Settings.t) (table : gmap string default_interest)
    (rand : nat → num) (w : world) (result : list lookbook) :
  (choose pow posts settings table rand w).1 = Some result →
  let w0 := {| this := setup (this w) posts settings table;
               localStorage := localStorage w; dataLayer := dataLayer w |} in
  let w' := (choose pow posts settings table rand w).2 in
  ∃ average_score average_chosen lookbooks,
    let e := SelectedList average_score average_chosen lookbooks
               (lkbk_uid <$> result) (limit <$> getWeights w0) in
    lastEvent (this w') = Some e
    ∧ dataLayer w' = (λ l, l ++ [e]) <$> dataLayer w.
Proof.
  intros H w0. unfold choose in *. fold w0 in H. fold w0.
  unfold performChoose in *.
  destruct (mapM as_lookbook _) as [data|]; [|done].
  destruct (getList _ _ _ _) as [[list|] self']; [|done].
  simpl in H. injection H as ->. cbn. eauto.
Qed.

Lemma choose_logs_selection_witness :
  let good1 := JObj [("uid", JStr "a"); ("interests", JArr [JStr "x"])] in
  let good2 :=
    JObj [("uid", JStr "b"); ("interests", JArr [JStr "y"]);
          ("promote", JBool true)] in
  let posts := JArr [good1; JNull; good2] in
  let w := World NewPersonalize None (Some []) in
  let result := [Lookbook "b" (Some ["y"]) None true (Fin (2 # 2));
                 Lookbook "a" (Some ["x"]) None false (Fin (2 # 2))] in
  let w0 := {| this := setup (this w) posts no_settings ∅;
               localStorage := localStorage w; dataLayer := dataLayer w |} in
  let w' := (choose (λ x _, x) posts no_settings ∅ (λ _, Fin (1 # 2)) w).2 in
  ∃ average_score average_chosen lookbooks,
    let e := SelectedList average_score average_chosen lookbooks
               (lkbk_uid <$> result) (limit <$> getWeights w0) in
    lastEvent (this w') = Some e
    ∧ dataLayer w' = (λ l, l ++ [e]) <$> dataLayer w.
Proof.
  intros good1 good2 posts w result.
  apply (choose_logs_selection (λ x _, x) posts no_settings ∅
           (λ _, Fin (1 # 2)) w result).
  vm_compute. reflexivity.
Defined.

(** ** The working copy after a pick *)

Lemma deprioritize_lookup_witness :
  let uw : gmap string num := <["x" := Fin (1 # 2)]> (<["z" := Fin 1]> ∅) in
  deprioritize NewPersonalize uw ["x"; "y"] !! "x"
  = if bool_decide ("x" ∈ ["x"; "y"])
    then Some (Num.mul (number_at uw "x")
                 (Num.sub (Fin 1) (deprioritization NewPersonalize)))
    else uw !! "x".
Proof.
  intros uw.
  apply (deprioritize_lookup NewPersonalize ["x"; "y"]).
  apply NoDup_cons. split.
  - intros H. apply elem_of_cons in H as [H|H]; [discriminate H|].
    by apply elem_of_nil in H.
  - apply NoDup_cons. split; [apply not_elem_of_nil|apply NoDup_nil_2].
Defined.

(** ** Edge cases of the update and of the selection *)

(** X15.  A weight that is [NaN] is not repaired by the filter: [updateWeights]
    leaves it [NaN] while its interest is not clicked, and replaces it by
    [initialValue] when it is. *)
Theorem updateWeights_NaN_weight (interests : list string)
    (userWeights : gmap string num) (k : string) :
  userWeights !! k = Some NaN →
  updateWeights NewPersonalize interests userWeights !! k
  = Some (if bool_decide (k ∈ interests) then Fin (1 # 2) else NaN).
Proof.
  intros Hk. unfold updateWeights.
  assert (Hf : map_imap (λ k score,
                  Some (filtered NewPersonalize interests k score))
                 userWeights !! k = Some NaN).
  { by rewrite map_lookup_imap, Hk; simpl; rewrite filtered_NaN. }
  case_bool_decide as Hin.
  - by apply (add_missing_lookup_falsy NewPersonalize k interests eq_refl Hin _ NaN).
  - by rewrite add_missing_lookup_notin.
Qed.

Lemma updateWeights_NaN_weight_witness :
  let uw : gmap string num := <["a" := NaN]> ∅ in
  updateWeights NewPersonalize ["b"] uw !! "a"
  = Some (if bool_decide ("a" ∈ ["b"]) then Fin (1 # 2) else NaN).
Proof.
  intros uw. by apply (updateWeights_NaN_weight ["b"] uw "a").
Defined.

(** X4.  When [count] does not exceed the number of promoted lookbooks (a
    [count] of zero or below included), [getList] returns exactly the
    promoted lookbooks, in the order of the catalog: nothing is sampled. *)
Theorem getList_only_promoted (self : instance) (lookbooks : list lookbook)
    (userWeights : gmap string num) (rand : nat → num) :
  count self ≤ Z.of_nat (length (List.filter lkbk_promote lookbooks)) →
  (getList self lookbooks userWeights rand).1
  = Some (List.filter lkbk_promote lookbooks).
Proof.
  intros Hc. unfold getList. rewrite getList_split_filter. simpl.
  set (n := Z.to_nat _). assert (n = 0%nat) as -> by (subst n; lia).
  reflexivity.
Qed.

Lemma getList_only_promoted_witness :
  let self := setup NewPersonalize (JArr []) (Settings.Make (Some (-3)) None None) ∅ in
  let a := Lookbook "a" (Some ["x"]) None false (Fin 3) in
  let b := Lookbook "b" None None true (Fin 0) in
  (getList self [a; b] ∅ (λ _, Fin 0)).1 = Some (List.filter lkbk_promote [a; b]).
Proof.
  intros self a b.
  apply (getList_only_promoted self [a; b] ∅ (λ _, Fin 0)). simpl. lia.
Defined.
